(** * obstacles-distance: a vision service that reports the closest obstacle

    A shallow embedding of [obstacles-distance/obstacles-distance.go].  The
    service queries a camera [NumQueries] times for a point cloud, reduces each
    non-empty cloud to the point closest to the origin and reports the median
    of these points.

    Coordinates are Go [float64] values: they are modelled by Rocq's primitive
    binary64 floats, whose operations are the IEEE 754 ones Go uses.  Each
    product and sum of [Norm2] is rounded on its own (no fused multiply-add),
    as the Go compiler does on amd64. *)

From Stdlib Require Import String ZArith List Bool Lia Floats Permutation.
Import ListNotations.

(** ** github.com/golang/geo/r3 *)

Module r3.

Record Vector : Type := mkVector { X : float; Y : float; Z : float }.

(** The zero value [r3.Vector{}]. *)
Definition zero : Vector := mkVector 0 0 0.

(** [func (v Vector) Dot(ov Vector) float64 { return v.X*ov.X + v.Y*ov.Y + v.Z*ov.Z }] *)
Definition Dot (v ov : Vector) : float :=
  (X v * X ov + Y v * Y ov + Z v * Z ov)%float.

(** [func (v Vector) Norm2() float64 { return v.Dot(v) }] *)
Definition Norm2 (v : Vector) : float := Dot v v.

End r3.

(** ** package math *)

(** [math.MaxFloat64], the largest finite float64: (2 - 2^-52) * 2^1023. *)
Definition MaxFloat64 : float := 0x1.fffffffffffffp+1023%float.

(** ** go.viam.com/rdk/pointcloud *)

Module pointcloud.

(** A point cloud is known to this package through [Size] and [Iterate]
    only.  It is modelled by the sequence of its points in the order in which
    [Iterate(0, 0, fn)] hands them to [fn]; the data attached to a point is
    never read here. *)
Definition PointCloud : Type := list r3.Vector.

Definition Size (cloud : PointCloud) : Z := Z.of_nat (length cloud).

(** [cloud.Iterate(0, 0, fn)]: a single batch, so every point is handed to
    [fn], in order, until [fn] answers [false].  The variables that [fn]
    captures and assigns are threaded as a state of type [S]. *)
Fixpoint Iterate {S : Type} (cloud : PointCloud) (fn : S -> r3.Vector -> S * bool) (s : S) : S :=
  match cloud with
  | [] => s
  | pt :: rest =>
      let '(s', continue) := fn s pt in
      if continue then Iterate rest fn s' else s'
  end.

Definition NewVector (x y z : float) : r3.Vector := r3.mkVector x y z.

(** [pointcloud.NewBasicEmpty()] *)
Definition NewBasicEmpty : PointCloud := [].

End pointcloud.

(** ** Errors and results *)

(** The [error] values of this package, one constructor for each place that
    makes one, and [errExternal] for an error made by a collaborator (the
    camera, the dependencies, the context, the point cloud library). *)
Inductive error : Type :=
| errUnimplemented                    (* obstacles distance service does not implement this method *)
| errInvalidNumQueries                (* invalid number of queries, pick a number between 1 and 20 *)
| errNilConfig                        (* config for obstacles_distance cannot be nil *)
| errNoPoints                         (* none of the input point clouds contained any points *)
| errCameraNotFound (camera : string) (* could not find camera %q *)
| errEmptyList                        (* point cloud list is empty, could not find median point *)
| errNoCamera                         (* no camera specified *)
| errExternal (msg : string).

(** What a Go call [(T, error)] comes back with: a value, an error, or a
    run-time panic (an index out of range). *)
Inductive Result (A : Type) : Type :=
| Ok (a : A)
| Err (e : error)
| Panic.

Arguments Ok {A} a.
Arguments Err {A} e.
Arguments Panic {A}.

(** What a collaborator answers to a call: a value, or an error of its own
    making, which this package sees as [errExternal]. *)
Inductive Answer (A : Type) : Type :=
| Value (a : A)
| Failure (msg : string).

Arguments Value {A} a.
Arguments Failure {A} msg%_string.

Definition answered {A : Type} (a : Answer A) : Result A :=
  match a with
  | Value a => Ok a
  | Failure msg => Err (errExternal msg)
  end.

(** ** package sort *)

Section Sort.
Variable A : Type.
(** [data.Less(i, j)], as a function of the elements at [i] and [j]. *)
Variable Less : A -> A -> bool.

(** The inner loop of [insertionSort],
    [for j := i; j > a && data.Less(j, j-1); j-- { data.Swap(j, j-1) }]:
    the element [x] moves left past every element it is [Less] than.
    [before] holds the elements left of [x], nearest first. *)
Fixpoint sink (x : A) (before : list A) : list A :=
  match before with
  | [] => [x]
  | y :: before' => if Less x y then y :: sink x before' else x :: before
  end.

(** [insertionSort(data, 0, n)], the
    [for i := a + 1; i < b; i++] loop around the inner loop above.  It is what
    [sort.Sort] runs on a short slice: one of two or three elements in every
    release of Go, one of at most 12 elements since Go 1.19. *)
Definition insertionSort (data : list A) : list A :=
  rev (fold_left (fun before x => sink x before) data []).

(** The documented requirement on [Less]: a strict ordering, transitive, and
    whose incomparability is transitive too (floating-point [<] is not, when
    NaN is involved). *)
Definition transitive_ordering (data : list A) : Prop :=
  (forall a, In a data -> Less a a = false) /\
  (forall a b c, In a data -> In b data -> In c data ->
                 Less a b = true -> Less b c = true -> Less a c = true) /\
  (forall a b c, In a data -> In b data -> In c data ->
                 Less a b = false -> Less b c = false -> Less a c = false).

(** [ascending s]: no element is [Less] than an earlier one. *)
Inductive ascending : list A -> Prop :=
| ascending_nil : ascending []
| ascending_cons a s : (forall b, In b s -> Less b a = false) -> ascending s -> ascending (a :: s).

(** What [sort.Sort] promises: it only swaps elements, and it leaves the data
    in ascending order when [Less] is a transitive ordering of them. *)
Definition sorts (Sort : list A -> list A) : Prop :=
  forall data,
    Permutation data (Sort data) /\
    (transitive_ordering data -> ascending (Sort data)).

End Sort.

Arguments sink {A} Less x before.
Arguments insertionSort {A} Less data.
Arguments transitive_ordering {A} Less data.
Arguments ascending {A} Less _.
Arguments sorts {A} Less Sort.

(** Go's [s[i]] on a slice: a panic ([None]) when [i] is out of range. *)
Definition index {A : Type} (s : list A) (i : Z) : option A :=
  if (i <? 0)%Z then None else nth_error s (Z.to_nat i).

(** ** go.viam.com/rdk/spatialmath, go.viam.com/rdk/vision *)

Module spatialmath.
(** A point geometry: its position and its label. *)
Record Geometry : Type := { Point : r3.Vector; Label : string }.
Definition NewPoint (pt : r3.Vector) (label : string) : Geometry :=
  {| Point := pt; Label := label |}.
End spatialmath.

Module vis.
Record Object : Type :=
  { PointCloud : pointcloud.PointCloud; Geometry : spatialmath.Geometry }.
End vis.

(** ** The camera and the calls made to it *)

(** How many acquisitions have been issued so far: [NextPointCloud] calls and
    image reads. *)
Record Calls : Type := { pointClouds : nat; images : nat }.

(** A computation that may call the camera: from the calls issued so far to
    its result and the calls issued when it returns. *)
Definition M (A : Type) : Type := Calls -> Result A * Calls.

Definition ret {A : Type} (a : A) : M A := fun c => (Ok a, c).

Definition fail {A : Type} (e : error) : M A := fun c => (Err e, c).

Definition lift {A : Type} (r : Result A) : M A := fun c => (r, c).

Definition bind {A B : Type} (m : M A) (k : A -> M B) : M B :=
  fun c =>
    match m c with
    | (Ok a, c') => k a c'
    | (Err e, c') => (Err e, c')
    | (Panic, c') => (Panic, c')
    end.

Notation "x <- m ;; k" := (bind m (fun x => k))
  (at level 61, m at next level, right associativity).

Section Service.

(** Types this package only passes around: images, the [extra] maps,
    connections, loggers, commands, detections and classifications. *)
Context {Img Extra Conn Logger Command Detection Classification : Type}.

(** A camera, by what it answers: [nextPointCloud k] is the result of
    [NextPointCloud] when [k] such calls were issued before, and likewise
    [decodeImage] for [camera.DecodeImageFromCamera]. *)
Record Camera : Type :=
  { nextPointCloud : nat -> Answer pointcloud.PointCloud;
    decodeImage : nat -> Answer Img }.

Definition NextPointCloud (src : Camera) : M pointcloud.PointCloud :=
  fun c => (answered (nextPointCloud src (pointClouds c)),
            {| pointClouds := S (pointClouds c); images := images c |}).

Definition DecodeImageFromCamera (cam : Camera) : M Img :=
  fun c => (answered (decodeImage cam (images c)),
            {| pointClouds := pointClouds c; images := S (images c) |}).

(** [resource.Dependencies], by name. *)
Definition Dependencies : Type := string -> option Camera.

(** [camera.FromDependencies(deps, name)] *)
Definition FromDependencies (deps : Dependencies) (name : string) : Result Camera :=
  match deps name with
  | Some cam => Ok cam
  | None => Err (errExternal name)
  end.

(** *** The collaborators of the median computation *)

(** [sort.Sort(points(v))], by the [Less] of the sorted type. *)
Variable sort_Sort : (r3.Vector -> r3.Vector -> bool) -> list r3.Vector -> list r3.Vector.

(** [utils.GroupWorkParallel(ctx, totalSize, before, groupWork)]: an error
    (the context was cancelled), or the work numbers [from, to) handed to
    each group, in the order of the group numbers.  Each group calls its
    member function on [from], [from+1], ..., [to-1] and then its done
    function; the call returns when all groups are done. *)
Variable GroupWorkParallel : nat -> Answer (list (nat * nat)).

(** What [GroupWorkParallel] promises about the groups: every work number
    below [totalSize] is handed to one group, once. *)
Definition workNums (groups : list (nat * nat)) : list nat :=
  flat_map (fun group => seq (fst group) (snd group - fst group)) groups.

Definition distributes (groups : list (nat * nat)) (totalSize : nat) : Prop :=
  Permutation (workNums groups) (seq 0 totalSize).

(** The error, if any, of [Set(vector, data)] on an empty basic cloud. *)
Variable pcSet : r3.Vector -> option string.

(** *** Configuration *)

Definition DefaultNumQueries : Z := 10.

Record DistanceDetectorConfig : Type :=
  { NumQueries : Z; DefaultCamera : string }.

(** [Validate] assigns [config.NumQueries]: the configuration it leaves
    behind is returned next to its result [(reqDeps, optDeps)]. *)
Definition Validate (config : DistanceDetectorConfig) (path : string)
  : DistanceDetectorConfig * Result (list string * list string) :=
  let reqDeps : list string := [] in
  let optDeps : list string := [] in
  let config :=
    if (NumQueries config =? 0)%Z
    then {| NumQueries := DefaultNumQueries; DefaultCamera := DefaultCamera config |}
    else config in
  if ((NumQueries config <? 1) || (NumQueries config >? 20))%Z
  then (config, Err errInvalidNumQueries)
  else
    let reqDeps :=
      if negb (DefaultCamera config =? "")%string
      then reqDeps ++ [DefaultCamera config]
      else reqDeps in
    (config, Ok (reqDeps, optDeps)).

(** *** getClosestPoint *)

(** The function handed to [Iterate]; its state is
    [(minDistance, minPoint)]. *)
Definition closestStep (st : float * r3.Vector) (pt : r3.Vector)
  : (float * r3.Vector) * bool :=
  let '(minDistance, minPoint) := st in
  let dist := r3.Norm2 pt in
  if (dist <? minDistance)%float
  then ((dist, pt), true)
  else ((minDistance, minPoint), true).

Definition getClosestPoint (cloud : pointcloud.PointCloud) : r3.Vector :=
  let minDistance := MaxFloat64 in
  let minPoint := r3.zero in
  snd (pointcloud.Iterate cloud closestStep (minDistance, minPoint)).

(** *** Median *)

(** [func (p points) Less(i, j int) bool { return p[i].Norm2() < p[j].Norm2() }] *)
Definition points_Less (pi pj : r3.Vector) : bool :=
  (r3.Norm2 pi <? r3.Norm2 pj)%float.

Definition sortVectors (v : list r3.Vector) : list r3.Vector :=
  sort_Sort points_Less v.

(** The division of [(len(pts) - 1) / 2] is Go's, which truncates towards
    zero: the index is 0 for an empty slice, and reading it panics. *)
Definition getMedianPoint (pts : list r3.Vector) : Result r3.Vector :=
  let pts := sortVectors pts in
  let index_ := ((Z.of_nat (length pts) - 1) ÷ 2)%Z in
  match index pts index_ with
  | Some p => Ok p
  | None => Panic
  end.

(** The member function of one group, run on the work numbers of the group:
    it appends the closest point of [clouds[workNum]] to [closestPoints]. *)
Fixpoint memberWork (clouds : list pointcloud.PointCloud) (workNums : list nat)
         (closestPoints : list r3.Vector) : option (list r3.Vector) :=
  match workNums with
  | [] => Some closestPoints
  | workNum :: rest =>
      match nth_error clouds workNum with
      | Some cloud => memberWork clouds rest (closestPoints ++ [getClosestPoint cloud])
      | None => None
      end
  end.

(** [results], one slice of closest points for each group. *)
Fixpoint groupResults (clouds : list pointcloud.PointCloud) (groups : list (nat * nat))
  : option (list (list r3.Vector)) :=
  match groups with
  | [] => Some []
  | (from, to) :: groups' =>
      match memberWork clouds (seq from (to - from)) [] with
      | Some closestPoints =>
          match groupResults clouds groups' with
          | Some results => Some (closestPoints :: results)
          | None => None
          end
      | None => None
      end
  end.

Definition medianFromPointClouds (clouds : list pointcloud.PointCloud) : Result r3.Vector :=
  match GroupWorkParallel (length clouds) with
  | Failure err => Err (errExternal err)
  | Value groups =>
      match groupResults clouds groups with
      | None => Panic
      | Some results =>
          let candidates := concat results in
          if (Z.of_nat (length candidates) =? 0)%Z
          then Err errEmptyList
          else getMedianPoint candidates
      end
  end.

(** *** The segmenter *)

(** The acquisition loop [for i := 0; i < conf.NumQueries; i++], with [n]
    rounds left to go. *)
Fixpoint queryLoop (src : Camera) (n : nat) (clouds : list pointcloud.PointCloud)
  : M (list pointcloud.PointCloud) :=
  match n with
  | O => ret clouds
  | S n' =>
      nxtPC <- NextPointCloud src ;;
      if (pointcloud.Size nxtPC =? 0)%Z
      then queryLoop src n' clouds
      else queryLoop src n' (clouds ++ [nxtPC])
  end.

(** The function [segmenter] made by [registerObstacleDistanceDetector].  It
    captures [conf] and reads [conf.NumQueries] when it is called; the
    configuration is not assigned after [Validate], so that it is taken here as
    a value. *)
Definition segmenter (conf : DistanceDetectorConfig) (src : Camera) : M (list vis.Object) :=
  clouds <- queryLoop src (Z.to_nat (NumQueries conf)) [] ;;
  if (Z.of_nat (length clouds) =? 0)%Z
  then fail errNoPoints
  else
    median <- lift (medianFromPointClouds clouds) ;;
    let vector := pointcloud.NewVector (r3.X median) (r3.Y median) (r3.Z median) in
    let pt := spatialmath.NewPoint vector "obstacle" in
    let pcToReturn := pointcloud.NewBasicEmpty in
    match pcSet vector with
    | Some err => fail (errExternal err)
    | None =>
        let pcToReturn := pcToReturn ++ [vector] in
        ret [ {| vis.PointCloud := pcToReturn; vis.Geometry := pt |} ]
    end.

(** *** The service *)

Record obstacleDistanceService : Type :=
  { name : string;
    segmenter_ : Camera -> M (list vis.Object);
    defaultCamera : option Camera;
    deps : Dependencies }.

(** [conf] is a pointer: [None] is [nil]. *)
Definition registerObstacleDistanceDetector
           (name : string) (conf : option DistanceDetectorConfig) (deps : Dependencies)
  : Result obstacleDistanceService :=
  match conf with
  | None => Err errNilConfig
  | Some conf =>
      let segmenter := segmenter conf in
      let mk defaultCam :=
        Ok {| name := name; segmenter_ := segmenter;
              defaultCamera := defaultCam; deps := deps |} in
      if negb (DefaultCamera conf =? "")%string
      then
        match FromDependencies deps (DefaultCamera conf) with
        | Ok defaultCam => mk (Some defaultCam)
        | _ => Err (errCameraNotFound (DefaultCamera conf))
        end
      else mk None
  end.

Definition GetObjectPointClouds (s : obstacleDistanceService) (cameraName : string)
           (extra : Extra) : M (list vis.Object) :=
  if negb (cameraName =? "")%string
  then cam <- lift (FromDependencies (deps s) cameraName) ;; segmenter_ s cam
  else
    match defaultCamera s with
    | Some cam => segmenter_ s cam
    | None => fail errNoCamera
    end.

Record CaptureOptions : Type :=
  { ReturnImage : bool; ReturnDetections : bool;
    ReturnClassifications : bool; ReturnObject : bool }.

Record VisCapture : Type :=
  { Image : option Img;
    Detections_ : list Detection;
    Classifications_ : list Classification;
    Objects : list vis.Object }.

Definition CaptureAllFromCamera (s : obstacleDistanceService) (cameraName : string)
           (captureOptions : CaptureOptions) (extra : Extra) : M VisCapture :=
  cam <- (if negb (cameraName =? "")%string
          then lift (FromDependencies (deps s) cameraName)
          else
            match defaultCamera s with
            | Some cam => ret cam
            | None => fail errNoCamera
            end) ;;
  image <- (if ReturnImage captureOptions
            then img <- DecodeImageFromCamera cam ;; ret (Some img)
            else ret None) ;;
  objects <- (if ReturnObject captureOptions
              then GetObjectPointClouds s cameraName extra
              else ret []) ;;
  ret {| Image := image; Detections_ := []; Classifications_ := []; Objects := objects |}.

Definition NewClientFromConn (s : obstacleDistanceService) (conn : Conn)
           (remoteName : string) (name : string) (logger : Logger)
  : Result obstacleDistanceService :=
  Err errUnimplemented.

Definition Detections (s : obstacleDistanceService) (img : Img) (extra : Extra)
  : Result (list Detection) :=
  Err errUnimplemented.

Definition DetectionsFromCamera (s : obstacleDistanceService) (cameraName : string)
           (extra : Extra) : Result (list Detection) :=
  Err errUnimplemented.

Definition Classifications (s : obstacleDistanceService) (img : Img) (count : Z)
           (extra : Extra) : Result (list Classification) :=
  Err errUnimplemented.

Definition ClassificationsFromCamera (s : obstacleDistanceService) (cameraName : string)
           (count : Z) (extra : Extra) : Result (list Classification) :=
  Err errUnimplemented.

Record Properties : Type :=
  { ClassificationSupported : bool;
    DetectionSupported : bool;
    ObjectPCDsSupported : bool }.

Definition GetProperties (s : obstacleDistanceService) (extra : Extra) : Result Properties :=
  Ok {| ClassificationSupported := false;
        DetectionSupported := false;
        ObjectPCDsSupported := true |}.

Definition DoCommand (s : obstacleDistanceService) (cmd : Command) : Result Command :=
  Err errUnimplemented.

Definition Name (s : obstacleDistanceService) : string := name s.

Definition Close (s : obstacleDistanceService) : option error := None.

End Service.

(** * The vocabulary of the statements *)

(** [ordered x]: [x] is not NaN (it compares equal to itself). *)
Definition ordered (x : float) : Prop := (x =? x)%float = true.

(** One round of the scan, without the answer to [Iterate]. *)
Definition closestNext (st : float * r3.Vector) (pt : r3.Vector) : float * r3.Vector :=
  fst (closestStep st pt).

(** [descending Less s]: no element is [Less] than a later one.  In
    [insertionSort] the elements left of the one that sinks, nearest first,
    are in this order. *)
Definition descending {A : Type} (Less : A -> A -> bool) : list A -> Prop :=
  ascending (fun a b => Less b a).

(** A candidate is the closest point of some cloud. *)
Definition candidate (p : r3.Vector) : Prop := exists cloud, getClosestPoint cloud = p.

(** The closest point of [clouds[workNum]]. *)
Definition closestAt (clouds : list pointcloud.PointCloud) (workNum : nat) : r3.Vector :=
  getClosestPoint (nth workNum clouds []).

(** The calls issued once [k] more point clouds were asked for. *)
Definition after (c : Calls) (k : nat) : Calls :=
  {| pointClouds := pointClouds c + k; images := images c |}.

(** The clouds the loop keeps. *)
Definition nonEmpty (pc : pointcloud.PointCloud) : bool :=
  negb (pointcloud.Size pc =? 0)%Z.

(** The answers of the camera to [k] calls in a row, [c] being the calls
    issued before. *)
Definition answers {Img : Type} (src : @Camera Img) (c : Calls) (k : nat)
  : list (Answer pointcloud.PointCloud) :=
  map (nextPointCloud src) (seq (pointClouds c) k).

(** The object reported for a median point. *)
Definition obstacle (median : r3.Vector) : vis.Object :=
  {| vis.PointCloud := [median];
     vis.Geometry := spatialmath.NewPoint median "obstacle" |}.

(** What the segmenter makes of the clouds it kept. *)
Definition estimate
           (sort_Sort : (r3.Vector -> r3.Vector -> bool) -> list r3.Vector -> list r3.Vector)
           (GroupWorkParallel : nat -> Answer (list (nat * nat)))
           (pcSet : r3.Vector -> option string)
           (clouds : list pointcloud.PointCloud) : Result (list vis.Object) :=
  match clouds with
  | [] => Err errNoPoints
  | _ =>
      match medianFromPointClouds sort_Sort GroupWorkParallel clouds with
      | Ok median =>
          match pcSet median with
          | Some err => Err (errExternal err)
          | None => Ok [obstacle median]
          end
      | Err e => Err e
      | Panic => Panic
      end
  end.

(** ** Collaborators used in the examples *)

(** A camera that answers with two single-point clouds, then an empty cloud,
    then fails, and answers single-point clouds afterwards. *)
Definition flakyCamera : @Camera unit :=
  {| nextPointCloud := fun k =>
       match k with
       | 0%nat => Value [r3.mkVector 3 0 0]
       | 1%nat => Value [r3.mkVector 1 0 0]
       | 2%nat => Value []
       | 3%nat => Failure "camera timed out"
       | _ => Value [r3.mkVector 2 0 0]
       end;
     decodeImage := fun _ => Value tt |}.

(** A camera that sees nothing. *)
Definition blindCamera : @Camera unit :=
  {| nextPointCloud := fun _ => Value []; decodeImage := fun _ => Value tt |}.

(** All the work in one group. *)
Definition oneGroup (totalSize : nat) : Answer (list (nat * nat)) := Value [(0, totalSize)]%nat.

Definition noCalls : Calls := {| pointClouds := 0; images := 0 |}.

(** The work of three clouds in two groups, the last cloud first. *)
Definition twoGroups (totalSize : nat) : Answer (list (nat * nat)) :=
  Value [(2, totalSize); (0, 2)]%nat.

(** A camera that answers with clouds of one point, at distances 1 to 10. *)
Definition rangeCamera : @Camera unit :=
  {| nextPointCloud := fun k =>
       Value [r3.mkVector (nth k [1; 2; 3; 4; 5; 6; 7; 8; 9; 10] 0)%float 0 0];
     decodeImage := fun _ => Value tt |}.

(** The dependencies of a service with one camera, "camera-1". *)
Definition oneCamera : @Dependencies unit :=
  fun name => if (name =? "camera-1")%string then Some rangeCamera else None.

(** A camera that answers with point clouds, but fails to give an image. *)
Definition imagelessCamera : @Camera unit :=
  {| nextPointCloud := fun _ => Value [r3.mkVector 1 0 0];
     decodeImage := fun _ => Failure "no image" |}.

(** A service whose default camera is that camera. *)
Definition imagelessService : @obstacleDistanceService unit :=
  {| name := "vision-1";
     segmenter_ := segmenter (@insertionSort r3.Vector) oneGroup (fun _ => None)
                             {| NumQueries := 10; DefaultCamera := "camera-1" |};
     defaultCamera := Some imagelessCamera;
     deps := fun _ => None |}.

(** * Proofs *)

(** ** IEEE 754 comparison

    Go's [<] on float64 is [PrimFloat.ltb]: false as soon as one side is NaN.
    The facts below are read off [SFcompare], the specification of binary64
    comparison. *)

Ltac sf_cases :=
  repeat match goal with
         | |- context [Z.compare ?a ?b] => destruct (Z.compare_spec a b); subst
         | |- context [Pos.compare_cont Eq ?a ?b] =>
             change (Pos.compare_cont Eq a b) with (Pos.compare a b);
             destruct (Pos.compare_spec a b); subst
         | H : context [Z.compare ?a ?b] |- _ => destruct (Z.compare_spec a b); subst
         | H : context [Pos.compare_cont Eq ?a ?b] |- _ =>
             change (Pos.compare_cont Eq a b) with (Pos.compare a b) in H;
             destruct (Pos.compare_spec a b); subst
         end.

Ltac sf_destruct3 x y z :=
  destruct x as [[]|[]| |[] ?m ?e], y as [[]|[]| |[] ?m ?e], z as [[]|[]| |[] ?m ?e].

Lemma SFcompare_refl x : x <> S754_nan -> SFcompare x x = Some Eq.
Proof.
  destruct x as [[]|[]| |[] m e]; simpl; intros H; try congruence;
    rewrite Z.compare_refl, Pos.compare_cont_refl; reflexivity.
Qed.

Lemma SFcompare_antisym x y : SFcompare y x = option_map CompOpp (SFcompare x y).
Proof.
  unfold SFcompare.
  destruct x as [[]|[]| |[] m1 e1], y as [[]|[]| |[] m2 e2]; try reflexivity; simpl.
  all: rewrite (Z.compare_antisym e1 e2); destruct (Z.compare e1 e2); simpl; try reflexivity.
  all: change (Pos.compare_cont Eq ?a ?b) with (Pos.compare a b);
       rewrite (Pos.compare_antisym m1 m2); try reflexivity.
  all: rewrite ?CompOpp_involutive; reflexivity.
Qed.

Lemma SFcompare_lt_trans x y z :
  SFcompare x y = Some Lt -> SFcompare y z = Some Lt -> SFcompare x z = Some Lt.
Proof.
  unfold SFcompare; sf_destruct3 x y z; try (intros; congruence); intros H1 H2.
  all: sf_cases; simpl in *; try congruence; try lia.
Qed.

Lemma SFcompare_eq_l x y z c :
  SFcompare x y = Some Eq -> SFcompare y z = Some c -> SFcompare x z = Some c.
Proof.
  unfold SFcompare; sf_destruct3 x y z; try (intros; congruence); intros H1 H2.
  all: sf_cases; simpl in *; try congruence; try lia.
Qed.

Lemma SFcompare_some x y : x <> S754_nan -> y <> S754_nan -> exists c, SFcompare x y = Some c.
Proof.
  destruct x as [[]|[]| |[] m1 e1], y as [[]|[]| |[] m2 e2]; simpl; intros; try congruence; eauto.
Qed.

Lemma SFcompare_none x y : SFcompare x y = None -> x = S754_nan \/ y = S754_nan.
Proof.
  destruct x as [[]|[]| |[] m1 e1], y as [[]|[]| |[] m2 e2]; simpl; intros; try congruence; auto.
Qed.

Lemma ordered_spec x : ordered x <-> Prim2SF x <> S754_nan.
Proof.
  unfold ordered; rewrite eqb_spec; unfold SFeqb; split.
  - intros H E; rewrite E in H; discriminate.
  - intros H; rewrite (SFcompare_refl _ H); reflexivity.
Qed.

Lemma not_ordered_spec x : ~ ordered x <-> Prim2SF x = S754_nan.
Proof.
  rewrite ordered_spec; destruct (Prim2SF x); split; intros H; try congruence;
    exfalso; apply H; discriminate.
Qed.

Section FloatOrder.
Local Open Scope float_scope.

Lemma ltb_irrefl x : (x <? x) = false.
Proof.
  rewrite ltb_spec; unfold SFltb.
  destruct (SFcompare (Prim2SF x) (Prim2SF x)) as [[]|] eqn:E; try reflexivity.
  assert (N : Prim2SF x <> S754_nan) by (intros N; rewrite N in E; discriminate).
  rewrite (SFcompare_refl _ N) in E; discriminate.
Qed.

Lemma ltb_compare x y : (x <? y) = true <-> SFcompare (Prim2SF x) (Prim2SF y) = Some Lt.
Proof.
  rewrite ltb_spec; unfold SFltb.
  destruct (SFcompare (Prim2SF x) (Prim2SF y)) as [[]|]; split; congruence.
Qed.

Lemma eqb_compare x y : (x =? y) = true <-> SFcompare (Prim2SF x) (Prim2SF y) = Some Eq.
Proof.
  rewrite eqb_spec; unfold SFeqb.
  destruct (SFcompare (Prim2SF x) (Prim2SF y)) as [[]|]; split; congruence.
Qed.

Lemma ltb_trans x y z : (x <? y) = true -> (y <? z) = true -> (x <? z) = true.
Proof. rewrite !ltb_compare; apply SFcompare_lt_trans. Qed.

Lemma ltb_asym x y : (x <? y) = true -> (y <? x) = false.
Proof.
  intros H; destruct (y <? x) eqn:E; [|reflexivity].
  rewrite <- (ltb_irrefl x); symmetry; eapply ltb_trans; eassumption.
Qed.

Lemma ltb_ordered x y : (x <? y) = true -> ordered x /\ ordered y.
Proof.
  rewrite ltb_compare, !ordered_spec; intros H; split; intros N; rewrite N in H;
    [|destruct (Prim2SF x) as [[]|[]| |[]]]; discriminate.
Qed.

(** Between numbers, [<] is a strict total order up to [==]. *)
Lemma ltb_total x y : ordered x -> ordered y ->
  (x <? y) = true \/ (x =? y) = true \/ (y <? x) = true.
Proof.
  rewrite !ordered_spec, !ltb_compare, eqb_compare; intros Hx Hy.
  destruct (SFcompare_some _ _ Hx Hy) as [c Hc].
  rewrite (SFcompare_antisym (Prim2SF x) (Prim2SF y)), Hc.
  destruct c; simpl; auto.
Qed.

Lemma eqb_sym x y : (x =? y) = true -> (y =? x) = true.
Proof.
  rewrite !eqb_compare, (SFcompare_antisym (Prim2SF x) (Prim2SF y)); intros ->; reflexivity.
Qed.

Lemma eqb_ltb_l x y z : (x =? y) = true -> (y <? z) = (x <? z).
Proof.
  intros H. rewrite !ltb_spec; unfold SFltb.
  pose proof (eqb_sym _ _ H) as H'. rewrite eqb_compare in H, H'.
  destruct (SFcompare (Prim2SF y) (Prim2SF z)) as [c|] eqn:E.
  - rewrite (SFcompare_eq_l _ _ _ _ H E); reflexivity.
  - destruct (SFcompare (Prim2SF x) (Prim2SF z)) as [c|] eqn:E'; [|reflexivity].
    rewrite (SFcompare_eq_l _ _ _ _ H' E') in E; discriminate.
Qed.

Lemma eqb_ltb_r x y z : (x =? y) = true -> (z <? y) = (z <? x).
Proof.
  intros H. rewrite !ltb_spec; unfold SFltb.
  rewrite (SFcompare_antisym (Prim2SF y) (Prim2SF z)), (SFcompare_antisym (Prim2SF x) (Prim2SF z)).
  pose proof (eqb_ltb_l _ _ z H) as L. rewrite !ltb_spec in L; unfold SFltb in L.
  pose proof (eqb_sym _ _ H) as H'. rewrite eqb_compare in H, H'.
  destruct (SFcompare (Prim2SF y) (Prim2SF z)) as [c|] eqn:E.
  - rewrite (SFcompare_eq_l _ _ _ _ H E); reflexivity.
  - destruct (SFcompare (Prim2SF x) (Prim2SF z)) as [c|] eqn:E'; [|reflexivity].
    rewrite (SFcompare_eq_l _ _ _ _ H' E') in E; discriminate.
Qed.

(** What is not below a number is not below anything smaller or equal. *)
Lemma ltb_negtrans x y z : ordered y -> (x <? z) = true -> (x <? y) = true \/ (y <? z) = true.
Proof.
  intros Hy Hxz. destruct (ltb_ordered _ _ Hxz) as [Hx Hz].
  destruct (ltb_total _ _ Hx Hy) as [H|[H|H]]; auto.
  - right. rewrite (eqb_ltb_l _ _ z H); exact Hxz.
  - right. eapply ltb_trans; eassumption.
Qed.

Lemma leb_ltb x y : (x <=? y) = true <-> ordered x /\ ordered y /\ (y <? x) = false.
Proof.
  rewrite leb_spec, ltb_spec, !ordered_spec; unfold SFleb, SFltb.
  rewrite (SFcompare_antisym (Prim2SF x) (Prim2SF y)).
  destruct (SFcompare (Prim2SF x) (Prim2SF y)) as [c|] eqn:E.
  - assert (Prim2SF x <> S754_nan /\ Prim2SF y <> S754_nan) as [Hx Hy].
    { split; intros N; rewrite N in E; [|destruct (Prim2SF x) as [[]|[]| |[]]]; discriminate. }
    destruct c; simpl; split; intros H; auto; try discriminate;
      destruct H as (_ & _ & H); discriminate.
  - destruct (SFcompare_none _ _ E) as [N|N]; split; intros H; try discriminate;
      destruct H as (Hx & Hy & _); contradiction.
Qed.

Lemma eqb_ltb x y :
  (x =? y) = true <-> ordered x /\ ordered y /\ (x <? y) = false /\ (y <? x) = false.
Proof.
  split.
  - intros H. pose proof (eqb_sym _ _ H) as H'.
    assert (Hy : ordered y).
    { unfold ordered. rewrite eqb_compare in *. eapply SFcompare_eq_l; eassumption. }
    assert (Hx : ordered x).
    { unfold ordered. rewrite eqb_compare in *. eapply SFcompare_eq_l; eassumption. }
    repeat split; auto.
    + rewrite <- (eqb_ltb_l _ _ y H). apply ltb_irrefl.
    + rewrite <- (eqb_ltb_r _ _ y H). apply ltb_irrefl.
  - intros (Hx & Hy & H1 & H2).
    destruct (ltb_total _ _ Hx Hy) as [H|[H|H]]; congruence.
Qed.

End FloatOrder.

(** ** getClosestPoint: the scan *)

(** The function handed to [Iterate] never stops the iteration: the scan is a
    left fold over the whole cloud, each point taken once, in order. *)
Lemma Iterate_closestStep cloud st :
  pointcloud.Iterate cloud closestStep st = fold_left closestNext cloud st.
Proof.
  revert st; induction cloud as [|pt rest IH]; intros [d p]; [reflexivity|].
  simpl. unfold closestNext at 2. unfold closestStep.
  destruct (r3.Norm2 pt <? d)%float; simpl; apply IH.
Qed.

Lemma getClosestPoint_fold cloud :
  getClosestPoint cloud = snd (fold_left closestNext cloud (MaxFloat64, r3.zero)).
Proof. unfold getClosestPoint; rewrite Iterate_closestStep; reflexivity. Qed.

(** The state after a scan started at [(d0, p0)]: untouched when no point is
    below [d0], and otherwise a point of the cloud with its squared norm, which
    is below [d0]; in both cases no point of the cloud is below it. *)
Lemma scan_invariant cloud : forall d0 p0 d p,
  fold_left closestNext cloud (d0, p0) = (d, p) ->
  ((d = d0 /\ p = p0 /\ forall q, In q cloud -> (r3.Norm2 q <? d0)%float = false) \/
   (In p cloud /\ d = r3.Norm2 p /\ (d <? d0)%float = true)) /\
  (forall q, In q cloud -> (r3.Norm2 q <? d)%float = false).
Proof.
  induction cloud as [|pt rest IH]; intros d0 p0 d p H; simpl in H.
  - inversion H; subst. split; [left; repeat split|]; intros q [].
  - unfold closestNext at 2 in H. unfold closestStep in H.
    destruct (r3.Norm2 pt <? d0)%float eqn:E; simpl in H;
      destruct (IH _ _ _ _ H) as [[(-> & -> & Hn)|(Hin & -> & Hlt)] Hmin].
    + split.
      * right. repeat split; [left; reflexivity|exact E].
      * intros q [<-|Hq]; [apply ltb_irrefl|apply Hn, Hq].
    + split.
      * right. repeat split; [right; exact Hin|eapply ltb_trans; eassumption].
      * intros q [<-|Hq]; [|apply Hmin, Hq].
        apply ltb_asym; exact Hlt.
    + split.
      * left. repeat split. intros q [<-|Hq]; [exact E|apply Hn, Hq].
      * intros q [<-|Hq]; [exact E|apply Hn, Hq].
    + split.
      * right. repeat split; [right; exact Hin|exact Hlt].
      * intros q [<-|Hq]; [|apply Hmin, Hq].
        destruct (r3.Norm2 pt <? r3.Norm2 p)%float eqn:E'; [|reflexivity].
        rewrite <- E; symmetry; eapply ltb_trans; eassumption.
Qed.

(** A scan over points none of which is below the current minimum changes
    nothing. *)
Lemma scan_stays cloud : forall d p,
  (forall q, In q cloud -> (r3.Norm2 q <? d)%float = false) ->
  fold_left closestNext cloud (d, p) = (d, p).
Proof.
  induction cloud as [|pt rest IH]; intros d p H; [reflexivity|].
  simpl. unfold closestNext at 2. unfold closestStep.
  rewrite (H pt (or_introl eq_refl)); simpl.
  apply IH; intros q Hq; apply H; right; exact Hq.
Qed.

(** ** Sorting *)

Section SortFacts.
Variable A : Type.
Variable Less : A -> A -> bool.

Lemma transitive_ordering_perm (l l' : list A) :
  Permutation l l' -> transitive_ordering Less l -> transitive_ordering Less l'.
Proof.
  intros P (Hi & Ht & Hn).
  assert (I : forall a, In a l' -> In a l)
    by (intros a; apply Permutation_in, Permutation_sym, P).
  repeat split; intros; eauto.
Qed.

Lemma ascending_perm_head (a : A) (s s' : list A) :
  Permutation s s' -> (forall b, In b s -> Less b a = false) ->
  forall b, In b s' -> Less b a = false.
Proof. intros P H b Hb. apply H. eapply Permutation_in; [apply Permutation_sym, P|exact Hb]. Qed.

Lemma ascending_app_inv (l1 l2 : list A) (a : A) :
  ascending Less (l1 ++ a :: l2) ->
  (forall x, In x l1 -> Less a x = false) /\ (forall y, In y l2 -> Less y a = false).
Proof.
  induction l1 as [|x l1 IH]; simpl; intros H; inversion H as [|? ? Hhd Htl]; subst.
  - split; [intros x []|exact Hhd].
  - destruct (IH Htl) as [H1 H2]. split; [|exact H2].
    intros x' [<-|Hx]; [|apply H1, Hx].
    apply Hhd, in_or_app. right; left; reflexivity.
Qed.

(** *** insertionSort *)

Lemma sink_perm (x : A) (before : list A) : Permutation (x :: before) (sink Less x before).
Proof.
  induction before as [|y r IH]; simpl; [reflexivity|].
  destruct (Less x y); [|reflexivity].
  etransitivity; [apply perm_swap|]. apply perm_skip, IH.
Qed.

Lemma insertion_fold_perm (data acc : list A) :
  Permutation (acc ++ data) (fold_left (fun before x => sink Less x before) data acc).
Proof.
  revert acc; induction data as [|x data IH]; intros acc; simpl.
  - rewrite app_nil_r; reflexivity.
  - etransitivity; [|apply IH].
    etransitivity; [apply Permutation_sym, Permutation_middle|].
    apply (Permutation_app_tail data (sink_perm x acc)).
Qed.

Lemma insertionSort_perm (data : list A) : Permutation data (insertionSort Less data).
Proof.
  unfold insertionSort.
  etransitivity; [|apply Permutation_rev].
  apply (insertion_fold_perm data []).
Qed.

Lemma sink_descending (U : list A) (x : A) (before : list A) :
  transitive_ordering Less U -> In x U -> (forall y, In y before -> In y U) ->
  descending Less before -> descending Less (sink Less x before).
Proof.
  intros (Hi & Ht & Hn) Hx.
  induction before as [|y r IH]; intros HU D; simpl.
  - constructor; [intros b []|constructor].
  - inversion D as [|? ? Hhd Htl]; subst.
    assert (Hy : In y U) by (apply HU; left; reflexivity).
    assert (Hr : forall z, In z r -> In z U) by (intros z Hz; apply HU; right; exact Hz).
    destruct (Less x y) eqn:E.
    + constructor; [|apply IH; assumption].
      intros b Hb.
      apply (Permutation_in _ (Permutation_sym (sink_perm x r))) in Hb.
      destruct Hb as [<-|Hb]; [|apply Hhd, Hb].
      destruct (Less y x) eqn:E'; [|reflexivity].
      rewrite <- (Hi x Hx); symmetry; apply (Ht x y x); assumption.
    + constructor; [|exact D].
      intros b [<-|Hb]; [exact E|].
      apply (Hn x y b); auto.
Qed.

Lemma insertion_fold_descending (U data : list A) : forall acc,
  transitive_ordering Less U ->
  (forall y, In y data -> In y U) -> (forall y, In y acc -> In y U) ->
  descending Less acc ->
  descending Less (fold_left (fun before x => sink Less x before) data acc).
Proof.
  induction data as [|x data IH]; intros acc HT Hd Ha D; simpl; [exact D|].
  apply IH; auto.
  - intros y Hy; apply Hd; right; exact Hy.
  - intros y Hy.
    apply (Permutation_in _ (Permutation_sym (sink_perm x acc))) in Hy.
    destruct Hy as [<-|Hy]; [apply Hd; left; reflexivity|apply Ha, Hy].
  - apply (sink_descending U); auto. apply Hd; left; reflexivity.
Qed.

Lemma ascending_snoc (s : list A) (a : A) :
  ascending Less s -> (forall b, In b s -> Less a b = false) -> ascending Less (s ++ [a]).
Proof.
  induction s as [|x s IH]; intros H Ha; simpl.
  - constructor; [intros b []|constructor].
  - inversion H as [|? ? Hhd Htl]; subst. constructor.
    + intros b Hb. apply in_app_or in Hb. destruct Hb as [Hb|[<-|[]]]; [apply Hhd, Hb|].
      apply Ha; left; reflexivity.
    + apply IH; [exact Htl|]. intros b Hb; apply Ha; right; exact Hb.
Qed.

Lemma descending_rev (s : list A) : descending Less s -> ascending Less (rev s).
Proof.
  induction s as [|x s IH]; intros D; simpl; [constructor|].
  inversion D as [|? ? Hhd Htl]; subst.
  apply ascending_snoc; [apply IH, Htl|].
  intros b Hb. apply Hhd, in_rev, Hb.
Qed.

(** [insertionSort] keeps the promise of [sort.Sort]. *)
Lemma insertionSort_sorts : sorts Less (insertionSort Less).
Proof.
  intros data. split; [apply insertionSort_perm|].
  intros HT. unfold insertionSort. apply descending_rev.
  apply (insertion_fold_descending data); auto.
  - intros y [].
  - constructor.
Qed.

(** *** Two ascending arrangements of the same elements *)

Lemma filter_length_perm (f : A -> bool) (l l' : list A) :
  Permutation l l' -> length (filter f l) = length (filter f l').
Proof.
  induction 1 as [|x l l' _ IH|x y l|l l' l'' _ IH1 _ IH2]; simpl.
  - reflexivity.
  - destruct (f x); simpl; congruence.
  - destruct (f x), (f y); reflexivity.
  - congruence.
Qed.

Lemma filter_all (f : A -> bool) (l : list A) :
  (forall x, In x l -> f x = true) -> filter f l = l.
Proof.
  induction l as [|x l IH]; intros H; simpl; [reflexivity|].
  rewrite (H x (or_introl eq_refl)), IH; [reflexivity|].
  intros y Hy; apply H; right; exact Hy.
Qed.

Lemma filter_none (f : A -> bool) (l : list A) :
  (forall x, In x l -> f x = false) -> filter f l = [].
Proof.
  induction l as [|x l IH]; intros H; simpl; [reflexivity|].
  rewrite (H x (or_introl eq_refl)), IH; [reflexivity|].
  intros y Hy; apply H; right; exact Hy.
Qed.

Lemma filter_length_le (f : A -> bool) (l : list A) : length (filter f l) <= length l.
Proof. induction l as [|x l IH]; simpl; [lia|destruct (f x); simpl; lia]. Qed.

(** An element of one ascending arrangement is not [Less] than the element
    at the same place of another. *)
Lemma ascending_perm_not_Less (s1 s2 : list A) (i : nat) (a b : A) :
  transitive_ordering Less s1 -> Permutation s1 s2 ->
  ascending Less s1 -> ascending Less s2 ->
  nth_error s1 i = Some a -> nth_error s2 i = Some b ->
  Less a b = false.
Proof.
  intros (Hi & Ht & Hn) P A1 A2 Ha Hb.
  destruct (Less a b) eqn:E; [exfalso|reflexivity].
  assert (I2 : forall x, In x s2 -> In x s1)
    by (intros x; apply Permutation_in, Permutation_sym, P).
  pose proof (nth_error_In _ _ Ha) as Ia.
  pose proof (I2 _ (nth_error_In _ _ Hb)) as Ib.
  destruct (nth_error_split _ _ Ha) as (l1 & l2 & -> & L1).
  destruct (nth_error_split _ _ Hb) as (l1' & l2' & -> & L1').
  destruct (ascending_app_inv _ _ _ A1) as [B1 _].
  destruct (ascending_app_inv _ _ _ A2) as [_ B2].
  pose proof (filter_length_perm (fun x => Less x b) _ _ P) as C.
  rewrite !filter_app, !length_app in C. simpl in C.
  rewrite E, (Hi b Ib) in C. simpl in C.
  rewrite (filter_all (fun x => Less x b) l1) in C.
  - rewrite (filter_none (fun x => Less x b) l2') in C by exact B2.
    pose proof (filter_length_le (fun x => Less x b) l1'). simpl in C. lia.
  - intros x Hx. destruct (Less x b) eqn:E'; [reflexivity|].
    assert (Ix : In x (l1 ++ a :: l2)) by (apply in_or_app; left; exact Hx).
    rewrite <- E. symmetry. apply (Hn a x b); auto.
Qed.

End SortFacts.

(** ** Candidates and their ordering *)

(** The squared distance of a candidate is a number: the scan never keeps a
    point whose squared distance is NaN. *)
Lemma getClosestPoint_ordered (cloud : pointcloud.PointCloud) :
  ordered (r3.Norm2 (getClosestPoint cloud)).
Proof.
  rewrite getClosestPoint_fold.
  destruct (fold_left closestNext cloud (MaxFloat64, r3.zero)) as [d p] eqn:E.
  destruct (scan_invariant _ _ _ _ _ E) as [[(_ & -> & _)|(_ & -> & Hlt)] _]; simpl.
  - reflexivity.
  - apply (ltb_ordered _ _ Hlt).
Qed.

Lemma candidate_ordered (p : r3.Vector) : candidate p -> ordered (r3.Norm2 p).
Proof. intros [cloud <-]. apply getClosestPoint_ordered. Qed.

(** On points whose squared distances are numbers, [points.Less] is the
    transitive ordering that [sort.Sort] asks for. *)
Lemma points_Less_transitive (pts : list r3.Vector) :
  (forall p, In p pts -> ordered (r3.Norm2 p)) ->
  transitive_ordering points_Less pts.
Proof.
  intros H. unfold points_Less. repeat split.
  - intros a _. apply ltb_irrefl.
  - intros a b c _ _ _. apply ltb_trans.
  - intros a b c _ Hb _ Hab Hbc.
    destruct (r3.Norm2 a <? r3.Norm2 c)%float eqn:E; [|reflexivity].
    destruct (ltb_negtrans _ _ _ (H b Hb) E); congruence.
Qed.

Lemma ascending_nth_error (A : Type) (Less : A -> A -> bool) (s : list A) :
  ascending Less s ->
  forall i j a b, (i < j)%nat -> nth_error s i = Some a -> nth_error s j = Some b ->
                  Less b a = false.
Proof.
  induction 1 as [|x s Hhd Htl IH]; intros i j a b Hij Ha Hb.
  - destruct i; discriminate.
  - destruct j as [|j]; [lia|]. simpl in Hb.
    destruct i as [|i]; simpl in Ha.
    + inversion Ha; subst. apply Hhd. eapply nth_error_In; exact Hb.
    + apply (IH i j); auto. lia.
Qed.

(** *** Reading the median *)

Section Median.
Variable sort_Sort : (r3.Vector -> r3.Vector -> bool) -> list r3.Vector -> list r3.Vector.
Hypothesis sort_Sort_sorts : forall Less, sorts Less (sort_Sort Less).

Lemma sortVectors_perm (pts : list r3.Vector) : Permutation pts (sortVectors sort_Sort pts).
Proof. apply sort_Sort_sorts. Qed.

Lemma sortVectors_length (pts : list r3.Vector) :
  length (sortVectors sort_Sort pts) = length pts.
Proof. symmetry. apply Permutation_length, sortVectors_perm. Qed.

Lemma sortVectors_ascending (pts : list r3.Vector) :
  (forall p, In p pts -> ordered (r3.Norm2 p)) ->
  ascending points_Less (sortVectors sort_Sort pts).
Proof. intros H. apply sort_Sort_sorts, points_Less_transitive, H. Qed.

(** The index [(len(pts) - 1) / 2] as a natural number. *)
Lemma median_index (k : nat) :
  (0 < k)%nat ->
  ((Z.of_nat k - 1) ÷ 2)%Z = Z.of_nat ((k - 1) / 2).
Proof.
  intros Hk. rewrite Z.quot_div_nonneg by lia.
  rewrite Nat2Z.inj_div, Nat2Z.inj_sub by lia. reflexivity.
Qed.

Lemma getMedianPoint_nth (pts : list r3.Vector) :
  pts <> [] ->
  exists m, getMedianPoint sort_Sort pts = Ok m /\
            nth_error (sortVectors sort_Sort pts) ((length pts - 1) / 2) = Some m /\
            In m pts.
Proof.
  intros Hne. unfold getMedianPoint.
  assert (Hk : (0 < length pts)%nat) by (destruct pts; [congruence|simpl; lia]).
  rewrite sortVectors_length, (median_index _ Hk). unfold index.
  destruct (Z.ltb_spec (Z.of_nat ((length pts - 1) / 2)) 0) as [Hneg|_]; [lia|].
  rewrite Nat2Z.id.
  destruct (nth_error (sortVectors sort_Sort pts) ((length pts - 1) / 2)) as [m|] eqn:E.
  - exists m. repeat split.
    eapply Permutation_in; [apply Permutation_sym, sortVectors_perm|].
    eapply nth_error_In; exact E.
  - apply nth_error_None in E. rewrite sortVectors_length in E.
    assert ((length pts - 1) / 2 <= length pts - 1)%nat by (apply Nat.Div0.div_le_upper_bound; lia).
    lia.
Qed.

End Median.

(** ** The parallel reduction *)

Lemma memberWork_map (clouds : list pointcloud.PointCloud) (nums : list nat) :
  forall closestPoints,
    (forall w, In w nums -> (w < length clouds)%nat) ->
    memberWork clouds nums closestPoints = Some (closestPoints ++ map (closestAt clouds) nums).
Proof.
  induction nums as [|w nums IH]; intros acc H; simpl.
  - rewrite app_nil_r; reflexivity.
  - assert (Hw : (w < length clouds)%nat) by (apply H; left; reflexivity).
    destruct (nth_error clouds w) as [cloud|] eqn:E;
      [|apply nth_error_None in E; lia].
    rewrite IH by (intros w' Hw'; apply H; right; exact Hw').
    unfold closestAt at 2. rewrite (nth_error_nth _ _ _ E), <- app_assoc. reflexivity.
Qed.

Lemma groupResults_concat (clouds : list pointcloud.PointCloud) (groups : list (nat * nat)) :
  (forall w, In w (workNums groups) -> (w < length clouds)%nat) ->
  exists results,
    groupResults clouds groups = Some results /\
    concat results = map (closestAt clouds) (workNums groups).
Proof.
  induction groups as [|[from to] groups IH]; intros H; simpl.
  - exists []. split; reflexivity.
  - unfold workNums in H; simpl in H.
    rewrite memberWork_map by (intros w Hw; apply H, in_or_app; left; exact Hw).
    destruct IH as (results & -> & Hc).
    { intros w Hw; apply H, in_or_app; right; exact Hw. }
    eexists. split; [reflexivity|].
    simpl. rewrite Hc. unfold workNums; simpl. rewrite map_app. reflexivity.
Qed.

Lemma closestAt_seq (clouds : list pointcloud.PointCloud) :
  map (closestAt clouds) (seq 0 (length clouds)) = map getClosestPoint clouds.
Proof.
  unfold closestAt. rewrite <- (map_map (fun w => nth w clouds []) getClosestPoint).
  f_equal. induction clouds as [|c clouds IH]; simpl; [reflexivity|].
  rewrite <- seq_shift, map_map. simpl. f_equal. exact IH.
Qed.

(** However the work is distributed, the candidates are the closest points of
    the clouds, in some order. *)
Lemma candidates_perm (clouds : list pointcloud.PointCloud) (groups : list (nat * nat)) :
  distributes groups (length clouds) ->
  exists results,
    groupResults clouds groups = Some results /\
    Permutation (concat results) (map getClosestPoint clouds).
Proof.
  intros D.
  destruct (groupResults_concat clouds groups) as (results & Hr & Hc).
  - intros w Hw. apply (Permutation_in _ D), in_seq in Hw. lia.
  - exists results. split; [exact Hr|].
    rewrite Hc, <- closestAt_seq. apply Permutation_map, D.
Qed.

Lemma medianFromPointClouds_candidates
      (sort_Sort : (r3.Vector -> r3.Vector -> bool) -> list r3.Vector -> list r3.Vector)
      (GroupWorkParallel : nat -> Answer (list (nat * nat)))
      (clouds : list pointcloud.PointCloud) (groups : list (nat * nat)) :
  GroupWorkParallel (length clouds) = Value groups ->
  distributes groups (length clouds) ->
  clouds <> [] ->
  exists candidates,
    Permutation candidates (map getClosestPoint clouds) /\
    candidates <> [] /\
    medianFromPointClouds sort_Sort GroupWorkParallel clouds = getMedianPoint sort_Sort candidates.
Proof.
  intros HG D Hne. unfold medianFromPointClouds. rewrite HG.
  destruct (candidates_perm clouds groups D) as (results & -> & P).
  exists (concat results).
  assert (L : length (concat results) = length clouds)
    by (rewrite (Permutation_length P); apply length_map).
  assert (Hc : concat results <> []).
  { intros E; rewrite E in L; destruct clouds; [congruence|discriminate]. }
  repeat split; auto.
  destruct (Z.eqb_spec (Z.of_nat (length (concat results))) 0) as [E|_]; [|reflexivity].
  destruct (concat results); [congruence|simpl in E; lia].
Qed.

(** ** The acquisition loop *)

Lemma after_0 (c : Calls) : after c 0 = c.
Proof. destruct c; unfold after; simpl. rewrite Nat.add_0_r. reflexivity. Qed.

Lemma after_S (c : Calls) (k : nat) :
  after {| pointClouds := S (pointClouds c); images := images c |} k = after c (S k).
Proof. unfold after; simpl. rewrite Nat.add_succ_r. reflexivity. Qed.

Section Acquisition.
Context {Img : Type}.
Variable src : @Camera Img.

Lemma answers_S (c : Calls) (k : nat) :
  answers src c (S k) =
  nextPointCloud src (pointClouds c)
    :: answers src {| pointClouds := S (pointClouds c); images := images c |} k.
Proof. reflexivity. Qed.

(** As long as the camera answers with clouds, the loop goes on, keeping
    the clouds that are not empty. *)
Lemma queryLoop_values (pcs : list pointcloud.PointCloud) :
  forall (m : nat) (clouds : list pointcloud.PointCloud) (c : Calls),
    answers src c (length pcs) = map Value pcs ->
    queryLoop src (length pcs + m) clouds c
    = queryLoop src m (clouds ++ filter nonEmpty pcs) (after c (length pcs)).
Proof.
  induction pcs as [|pc pcs IH]; intros m clouds c H.
  - simpl. rewrite app_nil_r, after_0. reflexivity.
  - simpl length in *. rewrite answers_S in H. simpl in H.
    injection H as H0 H.
    change (S (length pcs) + m)%nat with (S (length pcs + m)).
    simpl queryLoop. unfold bind at 1. unfold NextPointCloud at 1.
    rewrite H0. simpl answered. cbv iota beta.
    rewrite <- after_S. simpl filter. unfold nonEmpty at 1.
    destruct (pointcloud.Size pc =? 0)%Z; simpl negb; cbv iota.
    + apply IH, H.
    + rewrite (IH m (clouds ++ [pc]) _ H), <- app_assoc. reflexivity.
Qed.

Lemma queryLoop_all (pcs clouds : list pointcloud.PointCloud) (c : Calls) :
  answers src c (length pcs) = map Value pcs ->
  queryLoop src (length pcs) clouds c
  = (Ok (clouds ++ filter nonEmpty pcs), after c (length pcs)).
Proof.
  intros H. rewrite <- (Nat.add_0_r (length pcs)) at 1.
  rewrite (queryLoop_values pcs 0 clouds c H). reflexivity.
Qed.

Lemma queryLoop_failure (pcs clouds : list pointcloud.PointCloud) (msg : string)
      (n : nat) (c : Calls) :
  (length pcs < n)%nat ->
  answers src c (S (length pcs)) = map Value pcs ++ [Failure msg] ->
  queryLoop src n clouds c = (Err (errExternal msg), after c (S (length pcs))).
Proof.
  intros Hn H.
  assert (Hs : seq (pointClouds c) (S (length pcs))
               = seq (pointClouds c) (length pcs) ++ [pointClouds c + length pcs]%nat)
    by apply seq_S.
  unfold answers in H. rewrite Hs, map_app in H. simpl in H.
  apply app_inj_tail in H. destruct H as [H Hf].
  replace n with (length pcs + S (n - length pcs - 1))%nat by lia.
  rewrite (queryLoop_values pcs _ clouds c H).
  simpl queryLoop. unfold bind at 1. unfold NextPointCloud at 1.
  simpl pointClouds. rewrite Hf. simpl.
  unfold after; simpl. rewrite Nat.add_succ_r. reflexivity.
Qed.

End Acquisition.

(** ** getClosestPoint: claims *)

Local Open Scope float_scope.

(** C1 (as amended).  For every point cloud that holds at least one point whose
    squared distance from the origin is below [math.MaxFloat64],
    [getClosestPoint] returns a member of the cloud, whose squared distance is
    below [math.MaxFloat64] too; no member of the cloud is strictly closer to
    the origin, and the squared distance of the result is less than or equal to
    that of every member whose squared distance is a number. *)
Theorem getClosestPoint_closest (cloud : pointcloud.PointCloud) :
  (exists q, In q cloud /\ (r3.Norm2 q <? MaxFloat64) = true) ->
  In (getClosestPoint cloud) cloud /\
  (r3.Norm2 (getClosestPoint cloud) <? MaxFloat64) = true /\
  forall q, In q cloud ->
    (r3.Norm2 q <? r3.Norm2 (getClosestPoint cloud)) = false /\
    (ordered (r3.Norm2 q) ->
     (r3.Norm2 (getClosestPoint cloud) <=? r3.Norm2 q) = true).
Proof.
  intros (q0 & Hq0 & Hlt0). rewrite getClosestPoint_fold.
  destruct (fold_left closestNext cloud (MaxFloat64, r3.zero)) as [d p] eqn:E.
  destruct (scan_invariant _ _ _ _ _ E) as [[(_ & _ & Hn)|(Hin & -> & Hlt)] Hmin]; simpl.
  - rewrite (Hn _ Hq0) in Hlt0; discriminate.
  - repeat split; auto.
    intros Hq. apply leb_ltb. repeat split; auto.
    apply (ltb_ordered _ _ Hlt).
Qed.

Lemma getClosestPoint_closest_witness :
  let cloud := [r3.mkVector 3 0 0; r3.mkVector 1 0 0; r3.mkVector 0 1 0] in
  (exists q, In q cloud /\ (r3.Norm2 q <? MaxFloat64) = true) /\
  In (getClosestPoint cloud) cloud /\
  (r3.Norm2 (getClosestPoint cloud) <? MaxFloat64) = true /\
  forall q, In q cloud ->
    (r3.Norm2 q <? r3.Norm2 (getClosestPoint cloud)) = false /\
    (ordered (r3.Norm2 q) ->
     (r3.Norm2 (getClosestPoint cloud) <=? r3.Norm2 q) = true).
Proof.
  intros cloud.
  assert (H : exists q, In q cloud /\ (r3.Norm2 q <? MaxFloat64) = true).
  { exists (r3.mkVector 3 0 0). split; [left; reflexivity|reflexivity]. }
  split; [exact H|].
  exact (getClosestPoint_closest cloud H).
Defined.

(** C1 fails as stated.  The only point of the first cloud has finite
    coordinates, but its squared distance overflows to +Inf, which is not
    below [math.MaxFloat64]: the result is the zero vector, which is not in
    the cloud.  In the second cloud the result is (1, 0, 0), whose squared
    distance is not [<=] that of the member with a NaN coordinate. *)
Lemma getClosestPoint_not_member :
  let cloud := [r3.mkVector 0x1p+600 0 0] in
  let cloud' := [r3.mkVector 1 0 0; r3.mkVector nan 0 0] in
  (length cloud = 1%nat /\
   getClosestPoint cloud = r3.zero /\
   ~ In (getClosestPoint cloud) cloud) /\
  (getClosestPoint cloud' = r3.mkVector 1 0 0 /\
   (r3.Norm2 (getClosestPoint cloud') <=? r3.Norm2 (r3.mkVector nan 0 0)) = false).
Proof.
  repeat split.
  intros [H|[]].
  apply (f_equal (fun v => (r3.X v =? 0))) in H.
  vm_compute in H. discriminate.
Qed.

(** C6.  On the empty cloud [getClosestPoint] returns the zero vector
    (0, 0, 0), at squared distance 0 from the origin.  It is a total function:
    it has no error result and cannot panic. *)
Theorem getClosestPoint_empty :
  getClosestPoint [] = r3.mkVector 0 0 0 /\
  r3.Norm2 (getClosestPoint []) = 0.
Proof. split; reflexivity. Qed.

(** C7 (as amended).  Let [p] be a point of the cloud whose squared distance
    is below [math.MaxFloat64], such that no point of the cloud is strictly
    closer to the origin and no point before [p] in the traversal is at the
    same squared distance.  Then [getClosestPoint] returns [p]: among the
    points at the minimum distance, the first in traversal order.  The
    traversal is never cut short: the function handed to [Iterate] is applied
    to every point once, in order. *)
Theorem getClosestPoint_first (before after : pointcloud.PointCloud) (p : r3.Vector) :
  (r3.Norm2 p <? MaxFloat64) = true ->
  (forall q, In q (before ++ p :: after) -> (r3.Norm2 q <? r3.Norm2 p) = false) ->
  (forall q, In q before -> (r3.Norm2 q =? r3.Norm2 p) = false) ->
  getClosestPoint (before ++ p :: after) = p /\
  (forall st, pointcloud.Iterate (before ++ p :: after) closestStep st
              = fold_left closestNext (before ++ p :: after) st).
Proof.
  intros Hp Hmin Hfirst. split; [|intros st; apply Iterate_closestStep].
  rewrite getClosestPoint_fold, fold_left_app.
  destruct (fold_left closestNext before (MaxFloat64, r3.zero)) as [d x] eqn:E.
  assert (Hd : (r3.Norm2 p <? d) = true).
  { destruct (scan_invariant _ _ _ _ _ E) as [[(-> & _ & _)|(Hin & -> & Hlt)] _]; [exact Hp|].
    destruct (ltb_ordered _ _ Hlt) as [Hx _]. destruct (ltb_ordered _ _ Hp) as [Hp' _].
    destruct (ltb_total _ _ Hx Hp') as [H|[H|H]]; [| |exact H].
    - rewrite Hmin in H; [discriminate|]. apply in_or_app; left; exact Hin.
    - rewrite (Hfirst _ Hin) in H; discriminate. }
  simpl. unfold closestNext at 2. unfold closestStep. rewrite Hd. simpl.
  rewrite scan_stays; [reflexivity|].
  intros q Hq. apply Hmin, in_or_app. right; right; exact Hq.
Qed.

Lemma getClosestPoint_first_witness :
  let before := [r3.mkVector 2 0 0] in
  let p := r3.mkVector 0 1 0 in
  let after := [r3.mkVector 1 0 0; r3.mkVector 0 0 3] in
  (r3.Norm2 p =? r3.Norm2 (r3.mkVector 1 0 0)) = true /\
  getClosestPoint (before ++ p :: after) = p /\
  (forall st, pointcloud.Iterate (before ++ p :: after) closestStep st
              = fold_left closestNext (before ++ p :: after) st).
Proof.
  intros before p after. split; [reflexivity|].
  apply (getClosestPoint_first before after p).
  - reflexivity.
  - intros q [<-|[<-|[<-|[<-|[]]]]]; reflexivity.
  - intros q [<-|[]]; reflexivity.
Defined.

(** C7 fails as stated.  Both points of the cloud are at the same squared
    distance, +Inf, which is the minimum over the cloud; the result is not the
    first of them but the zero vector. *)
Lemma getClosestPoint_tie_overflow :
  let p := r3.mkVector 0x1p+600 0 0 in
  let q := r3.mkVector 0 0x1p+600 0 in
  (r3.Norm2 p =? r3.Norm2 q) = true /\
  (r3.Norm2 p <=? r3.Norm2 p) = true /\
  (r3.Norm2 p <=? r3.Norm2 q) = true /\
  getClosestPoint [p; q] = r3.zero /\
  (r3.X (getClosestPoint [p; q]) =? r3.X p) = false.
Proof. repeat split. Qed.

(** ** Median selection: claims *)

(** C2.  Let [pts] be a non-empty candidate set of size [k] (each of its
    elements is the closest point of some cloud), and let [sort.Sort] keep its
    promise.  [getMedianPoint] rearranges the candidates in ascending order of
    squared distance from the origin and returns the element at index
    [(k-1)/2] of that arrangement: an element of [pts], with as many elements
    before it as after it when [k] is odd, and the lower of the two middle
    elements when [k] is even. *)
Theorem getMedianPoint_lower_median
        (sort_Sort : (r3.Vector -> r3.Vector -> bool) -> list r3.Vector -> list r3.Vector)
        (pts : list r3.Vector) :
  (forall Less, sorts Less (sort_Sort Less)) ->
  pts <> [] ->
  (forall p, In p pts -> candidate p) ->
  let sorted := sortVectors sort_Sort pts in
  let k := length pts in
  Permutation pts sorted /\
  (forall i j a b, (i <= j)%nat ->
     nth_error sorted i = Some a -> nth_error sorted j = Some b ->
     (r3.Norm2 a <=? r3.Norm2 b) = true) /\
  exists m,
    getMedianPoint sort_Sort pts = Ok m /\
    nth_error sorted ((k - 1) / 2) = Some m /\
    In m pts /\
    (Nat.Odd k -> (2 * ((k - 1) / 2) + 1 = k)%nat) /\
    (Nat.Even k -> (2 * ((k - 1) / 2) + 2 = k)%nat).
Proof.
  intros HS Hne Hc sorted k.
  assert (Ho : forall p, In p pts -> ordered (r3.Norm2 p))
    by (intros p Hp; apply candidate_ordered, Hc, Hp).
  pose proof (sortVectors_perm sort_Sort HS pts) as P.
  pose proof (sortVectors_ascending sort_Sort HS pts Ho) as Asc.
  split; [exact P|]. split.
  - intros i j a b Hij Ha Hb.
    assert (Oa : ordered (r3.Norm2 a)).
    { apply Ho. eapply Permutation_in; [apply Permutation_sym, P|].
      eapply nth_error_In; exact Ha. }
    assert (Ob : ordered (r3.Norm2 b)).
    { apply Ho. eapply Permutation_in; [apply Permutation_sym, P|].
      eapply nth_error_In; exact Hb. }
    apply leb_ltb. repeat split; auto.
    destruct (Nat.eq_dec i j) as [->|Hn].
    + fold sorted in Ha, Hb. rewrite Ha in Hb. inversion Hb; subst. apply ltb_irrefl.
    + apply (ascending_nth_error _ _ _ Asc i j a b); auto. lia.
  - destruct (getMedianPoint_nth sort_Sort HS pts Hne) as (m & Hm & Hn & Hin).
    exists m. repeat split; auto.
    + intros [n Hk]. fold k. rewrite Hk.
      replace (2 * n + 1 - 1)%nat with (n * 2)%nat by lia.
      rewrite Nat.div_mul by lia. lia.
    + intros [n Hk]. fold k.
      assert (0 < k)%nat by (subst k; destruct pts; [congruence|simpl; lia]).
      destruct n as [|n]; [lia|]. rewrite Hk.
      replace (2 * S n - 1)%nat with (1 + n * 2)%nat by lia.
      rewrite Nat.div_add by lia. simpl. lia.
Qed.

(** The scenario of three candidates at squared distances 9, 1 and 4: the
    median is the candidate at squared distance 4. *)
Lemma getMedianPoint_lower_median_witness :
  let pts := [r3.mkVector 3 0 0; r3.mkVector 1 0 0; r3.mkVector 2 0 0] in
  getMedianPoint (@insertionSort r3.Vector) pts = Ok (r3.mkVector 2 0 0) /\
  let sorted := sortVectors (@insertionSort r3.Vector) pts in
  let k := length pts in
  Permutation pts sorted /\
  (forall i j a b, (i <= j)%nat ->
     nth_error sorted i = Some a -> nth_error sorted j = Some b ->
     (r3.Norm2 a <=? r3.Norm2 b) = true) /\
  exists m,
    getMedianPoint (@insertionSort r3.Vector) pts = Ok m /\
    nth_error sorted ((k - 1) / 2) = Some m /\
    In m pts /\
    (Nat.Odd k -> (2 * ((k - 1) / 2) + 1 = k)%nat) /\
    (Nat.Even k -> (2 * ((k - 1) / 2) + 2 = k)%nat).
Proof.
  intros pts. split; [reflexivity|].
  apply (getMedianPoint_lower_median (@insertionSort r3.Vector) pts).
  - intros Less. apply insertionSort_sorts.
  - discriminate.
  - intros p Hp. exists [p].
    destruct Hp as [<-|[<-|[<-|[]]]]; reflexivity.
Defined.

(** C3 (as amended).  Let two runs of [medianFromPointClouds] receive the same
    non-empty collection of clouds, in any two orders and with any two
    distributions of the clouds over the groups of [GroupWorkParallel].  Both
    runs return a point, each the closest point of one of the clouds, and the
    two points are at the same squared distance from the origin.  They are the
    same point whenever closest points at the same squared distance are
    equal. *)
Theorem medianFromPointClouds_order
        (sort_Sort : (r3.Vector -> r3.Vector -> bool) -> list r3.Vector -> list r3.Vector)
        (GroupWorkParallel GroupWorkParallel' : nat -> Answer (list (nat * nat)))
        (groups groups' : list (nat * nat))
        (clouds clouds' : list pointcloud.PointCloud) :
  (forall Less, sorts Less (sort_Sort Less)) ->
  GroupWorkParallel (length clouds) = Value groups ->
  distributes groups (length clouds) ->
  GroupWorkParallel' (length clouds') = Value groups' ->
  distributes groups' (length clouds') ->
  clouds <> [] ->
  Permutation clouds clouds' ->
  exists m m',
    medianFromPointClouds sort_Sort GroupWorkParallel clouds = Ok m /\
    medianFromPointClouds sort_Sort GroupWorkParallel' clouds' = Ok m' /\
    In m (map getClosestPoint clouds) /\
    In m' (map getClosestPoint clouds) /\
    (r3.Norm2 m =? r3.Norm2 m') = true /\
    ((forall p q, In p (map getClosestPoint clouds) -> In q (map getClosestPoint clouds) ->
                  (r3.Norm2 p =? r3.Norm2 q) = true -> p = q) ->
     m = m').
Proof.
  intros HS HG D HG' D' Hne P.
  assert (Hne' : clouds' <> []).
  { intros E; rewrite E in P. apply Permutation_sym, Permutation_nil in P. congruence. }
  destruct (medianFromPointClouds_candidates sort_Sort GroupWorkParallel clouds groups HG D Hne)
    as (c & Pc & Nc & ->).
  destruct (medianFromPointClouds_candidates sort_Sort GroupWorkParallel' clouds' groups' HG' D' Hne')
    as (c' & Pc' & Nc' & ->).
  assert (Pc'' : Permutation c' (map getClosestPoint clouds)).
  { etransitivity; [exact Pc'|]. apply Permutation_map, Permutation_sym, P. }
  destruct (getMedianPoint_nth sort_Sort HS c Nc) as (m & -> & Hn & Hin).
  destruct (getMedianPoint_nth sort_Sort HS c' Nc') as (m' & -> & Hn' & Hin').
  assert (Ho : forall l, Permutation l (map getClosestPoint clouds) ->
                         forall p, In p l -> ordered (r3.Norm2 p)).
  { intros l Pl p Hp. apply (Permutation_in _ Pl), in_map_iff in Hp.
    destruct Hp as (cloud & <- & _). apply getClosestPoint_ordered. }
  pose proof (sortVectors_perm sort_Sort HS c) as S.
  pose proof (sortVectors_perm sort_Sort HS c') as S'.
  pose proof (sortVectors_ascending sort_Sort HS c (Ho c Pc)) as Asc.
  pose proof (sortVectors_ascending sort_Sort HS c' (Ho c' Pc'')) as Asc'.
  assert (PS : Permutation (sortVectors sort_Sort c) (sortVectors sort_Sort c')).
  { etransitivity; [apply Permutation_sym, S|].
    etransitivity; [exact Pc|].
    etransitivity; [apply Permutation_sym, Pc''|exact S']. }
  assert (L : length c' = length c).
  { rewrite (Permutation_length Pc), (Permutation_length Pc''). reflexivity. }
  rewrite L in Hn'.
  assert (T : transitive_ordering points_Less (sortVectors sort_Sort c)).
  { apply points_Less_transitive. intros p Hp. apply (Ho c Pc).
    eapply Permutation_in; [apply Permutation_sym, S|exact Hp]. }
  assert (T' : transitive_ordering points_Less (sortVectors sort_Sort c'))
    by (eapply transitive_ordering_perm; [exact PS|exact T]).
  pose proof (ascending_perm_not_Less _ _ _ _ _ _ _ T PS Asc Asc' Hn Hn') as L1.
  pose proof (ascending_perm_not_Less _ _ _ _ _ _ _ T' (Permutation_sym PS) Asc' Asc Hn' Hn) as L2.
  assert (I : In m (map getClosestPoint clouds)) by (apply (Permutation_in _ Pc), Hin).
  assert (I' : In m' (map getClosestPoint clouds)) by (apply (Permutation_in _ Pc''), Hin').
  assert (E : (r3.Norm2 m =? r3.Norm2 m') = true).
  { apply eqb_ltb. repeat split; auto.
    - apply (Ho c Pc), Hin.
    - apply (Ho c' Pc''), Hin'. }
  exists m, m'. repeat split; auto.
Qed.

(** ** The segmenter: claims *)

Section Segmenter.
Context {Img : Type}.
Variable sort_Sort : (r3.Vector -> r3.Vector -> bool) -> list r3.Vector -> list r3.Vector.
Variable GroupWorkParallel : nat -> Answer (list (nat * nat)).
Variable pcSet : r3.Vector -> option string.
Variable conf : DistanceDetectorConfig.
Variable src : @Camera Img.

Let run : M (list vis.Object) := segmenter sort_Sort GroupWorkParallel pcSet conf src.
Let numQueries : nat := Z.to_nat (NumQueries conf).

Lemma answers_length (c : Calls) (k : nat) : length (answers src c k) = k.
Proof. unfold answers. rewrite length_map, length_seq. reflexivity. Qed.

(** When every acquisition answers with a cloud, the segmenter issues
    [NumQueries] acquisitions and reports on the clouds that are not
    empty. *)
Lemma segmenter_values (pcs : list pointcloud.PointCloud) (c : Calls) :
  answers src c numQueries = map Value pcs ->
  run c = (estimate sort_Sort GroupWorkParallel pcSet (filter nonEmpty pcs),
           after c numQueries).
Proof.
  intros H.
  assert (L : length pcs = numQueries).
  { rewrite <- (length_map Value pcs), <- H. apply answers_length. }
  unfold run, segmenter. fold numQueries. rewrite <- L in *.
  unfold bind at 1. rewrite (queryLoop_all src pcs [] c H).
  change ([] ++ filter nonEmpty pcs) with (filter nonEmpty pcs).
  destruct (filter nonEmpty pcs) as [|pc kept] eqn:E; [reflexivity|].
  assert (Hz : (Z.of_nat (length (pc :: kept)) =? 0)%Z = false)
    by (apply Z.eqb_neq; simpl length; lia).
  rewrite Hz. unfold estimate, bind, lift.
  destruct (medianFromPointClouds sort_Sort GroupWorkParallel (pc :: kept)) as [[x y z]| |];
    try reflexivity.
  unfold pointcloud.NewVector. cbn [r3.X r3.Y r3.Z].
  destruct (pcSet (r3.mkVector x y z)); reflexivity.
Qed.

(** C4.  If the acquisition fails on attempt [i], the attempts before it
    having answered with clouds, the segmenter returns the error of the
    camera as it is, and no object; [i] acquisitions were issued, and none of
    the [NumQueries - i] that remained.  If no acquisition fails, exactly
    [NumQueries] acquisitions are issued. *)
Theorem segmenter_fails_fast (c : Calls) :
  (forall (i : nat) (pcs : list pointcloud.PointCloud) (msg : string),
      (1 <= i <= numQueries)%nat ->
      answers src c i = map Value pcs ++ [Failure msg] ->
      run c = (Err (errExternal msg), after c i)) /\
  (forall pcs : list pointcloud.PointCloud,
      answers src c numQueries = map Value pcs ->
      snd (run c) = after c numQueries).
Proof.
  split.
  - intros i pcs msg [Hi Hn] H.
    assert (L : i = S (length pcs)).
    { rewrite <- (answers_length c i), H, length_app, length_map. simpl. lia. }
    subst i. unfold run, segmenter. fold numQueries.
    unfold bind at 1.
    rewrite (queryLoop_failure src pcs [] msg numQueries c); [reflexivity|lia|exact H].
  - intros pcs H. rewrite (segmenter_values pcs c H). reflexivity.
Qed.

(** C5.  Let every one of the [NumQueries] acquisitions answer with a cloud.
    The loop keeps the clouds that are not empty, in order, and drops the
    empty ones without an error.  If all the clouds are empty, the segmenter
    fails with [errNoPoints], an error of its own that no collaborator
    makes; if not, its result is the estimate made from the clouds that are
    not empty. *)
Theorem segmenter_empty_clouds (pcs : list pointcloud.PointCloud) (c : Calls) :
  answers src c numQueries = map Value pcs ->
  queryLoop src numQueries [] c = (Ok (filter nonEmpty pcs), after c numQueries) /\
  ((forall pc, In pc pcs -> pc = []) ->
   run c = (Err errNoPoints, after c numQueries) /\
   forall msg, errNoPoints <> errExternal msg) /\
  ((exists pc, In pc pcs /\ pc <> []) ->
   filter nonEmpty pcs <> [] /\
   run c = (estimate sort_Sort GroupWorkParallel pcSet (filter nonEmpty pcs),
            after c numQueries)).
Proof.
  intros H.
  assert (L : length pcs = numQueries).
  { rewrite <- (length_map Value pcs), <- H. apply answers_length. }
  split; [|split].
  - rewrite <- L in *. apply (queryLoop_all src pcs [] c H).
  - intros He. split; [|discriminate].
    rewrite (segmenter_values pcs c H).
    replace (filter nonEmpty pcs) with (@nil pointcloud.PointCloud); [reflexivity|].
    symmetry. apply filter_none. intros pc Hpc. rewrite (He pc Hpc). reflexivity.
  - intros (pc & Hpc & Hne). split; [|apply (segmenter_values pcs c H)].
    intros E.
    assert (I : In pc (filter nonEmpty pcs)).
    { apply filter_In. split; [exact Hpc|]. destruct pc; [congruence|reflexivity]. }
    rewrite E in I. exact I.
Qed.

End Segmenter.

(** *** A run of the segmenter *)

Lemma segmenter_fails_fast_witness :
  segmenter (@insertionSort r3.Vector) oneGroup (fun _ => None)
            {| NumQueries := 10; DefaultCamera := "" |} flakyCamera noCalls
  = (Err (errExternal "camera timed out"), {| pointClouds := 4; images := 0 |}).
Proof.
  apply (proj1 (segmenter_fails_fast (@insertionSort r3.Vector) oneGroup (fun _ => None)
                  {| NumQueries := 10; DefaultCamera := "" |} flakyCamera noCalls)
               4%nat [[r3.mkVector 3 0 0]; [r3.mkVector 1 0 0]; []] "camera timed out"%string).
  - simpl. lia.
  - reflexivity.
Defined.

Lemma segmenter_empty_clouds_witness :
  segmenter (@insertionSort r3.Vector) oneGroup (fun _ => None)
            {| NumQueries := 3; DefaultCamera := "" |} blindCamera noCalls
  = (Err errNoPoints, {| pointClouds := 3; images := 0 |}).
Proof.
  refine (proj1 (proj1 (proj2 (segmenter_empty_clouds (@insertionSort r3.Vector) oneGroup
                                 (fun _ => None) {| NumQueries := 3; DefaultCamera := "" |}
                                 blindCamera [[]; []; []] noCalls eq_refl)) _)).
  intros pc [<-|[<-|[<-|[]]]]; reflexivity.
Defined.

Lemma medianFromPointClouds_order_witness :
  let c1 := [r3.mkVector 3 0 0] in
  let c2 := [r3.mkVector 5 0 0; r3.mkVector 1 0 0] in
  let c3 := [r3.mkVector 0 2 0] in
  exists m m',
    medianFromPointClouds (@insertionSort r3.Vector) oneGroup [c1; c2; c3] = Ok m /\
    medianFromPointClouds (@insertionSort r3.Vector) twoGroups [c2; c1; c3] = Ok m' /\
    In m (map getClosestPoint [c1; c2; c3]) /\
    In m' (map getClosestPoint [c1; c2; c3]) /\
    (r3.Norm2 m =? r3.Norm2 m') = true /\
    ((forall p q, In p (map getClosestPoint [c1; c2; c3]) ->
                  In q (map getClosestPoint [c1; c2; c3]) ->
                  (r3.Norm2 p =? r3.Norm2 q) = true -> p = q) ->
     m = m').
Proof.
  intros c1 c2 c3.
  apply (medianFromPointClouds_order (@insertionSort r3.Vector) oneGroup twoGroups
           [(0, 3)]%nat [(2, 3); (0, 2)]%nat [c1; c2; c3] [c2; c1; c3]).
  - intros Less. apply insertionSort_sorts.
  - reflexivity.
  - apply Permutation_refl.
  - reflexivity.
  - apply (Permutation_cons_append [0; 1]%nat 2%nat).
  - discriminate.
  - apply perm_swap.
Defined.

(** C3 fails as stated.  The two clouds are not empty and their closest points
    are at the same squared distance, 1.  [sort.Sort] runs [insertionSort] on
    the two candidates and swaps nothing, so that the median is the closest
    point of whichever cloud comes first. *)
Lemma medianFromPointClouds_order_dependent :
  let c1 := [r3.mkVector 1 0 0] in
  let c2 := [r3.mkVector 0 1 0] in
  Permutation [c1; c2] [c2; c1] /\
  medianFromPointClouds (@insertionSort r3.Vector) oneGroup [c1; c2] = Ok (r3.mkVector 1 0 0) /\
  medianFromPointClouds (@insertionSort r3.Vector) oneGroup [c2; c1] = Ok (r3.mkVector 0 1 0) /\
  (r3.X (r3.mkVector 1 0 0) =? r3.X (r3.mkVector 0 1 0)) = false.
Proof. repeat split. apply perm_swap. Qed.

(** The scenario of ten acquisitions, each a cloud of one point, at distances
    1 to 10: the candidate at distance 5 is reported. *)
Example segmenter_ten_queries :
  segmenter (@insertionSort r3.Vector) oneGroup (fun _ => None)
            {| NumQueries := 10; DefaultCamera := "" |} rangeCamera noCalls
  = (Ok [obstacle (r3.mkVector 5 0 0)], {| pointClouds := 10; images := 0 |}).
Proof. reflexivity. Qed.

(** ** Configuration and the methods of the service: claims *)

Section Methods.
Context {Img Extra Conn Logger Command Detection Classification : Type}.
Variable sort_Sort : (r3.Vector -> r3.Vector -> bool) -> list r3.Vector -> list r3.Vector.
Variable GroupWorkParallel : nat -> Answer (list (nat * nat)).
Variable pcSet : r3.Vector -> option string.

(** The errors of the acquisition loop are those of the camera. *)
Lemma queryLoop_error (src : @Camera Img) (n : nat) :
  forall clouds c e c',
    queryLoop src n clouds c = (Err e, c') -> exists msg, e = errExternal msg.
Proof.
  induction n as [|n IH]; intros clouds c e c' H; simpl in H.
  - discriminate.
  - unfold bind at 1 in H. unfold NextPointCloud at 1 in H.
    destruct (nextPointCloud src (pointClouds c)) as [pc|msg]; simpl in H.
    + destruct (pointcloud.Size pc =? 0)%Z; eapply IH; exact H.
    + inversion H; subst. eexists; reflexivity.
Qed.

Lemma getMedianPoint_no_error (pts : list r3.Vector) (e : error) :
  getMedianPoint sort_Sort pts = Err e -> False.
Proof.
  unfold getMedianPoint.
  destruct (index _ _); discriminate.
Qed.

(** The segmenter does not look at the range of [NumQueries]. *)
Lemma segmenter_error (conf : DistanceDetectorConfig) (src : @Camera Img) (c c' : Calls)
      (e : error) :
  segmenter sort_Sort GroupWorkParallel pcSet conf src c = (Err e, c') ->
  e = errNoPoints \/ e = errEmptyList \/ exists msg, e = errExternal msg.
Proof.
  unfold segmenter. unfold bind at 1.
  destruct (queryLoop src (Z.to_nat (NumQueries conf)) [] c) as [[clouds|e'|] c1] eqn:Q;
    intros H.
  - destruct (Z.of_nat (length clouds) =? 0)%Z.
    + inversion H; subst. left; reflexivity.
    + unfold bind, lift in H. unfold medianFromPointClouds in H.
      destruct (GroupWorkParallel (length clouds)) as [groups|msg].
      * destruct (groupResults clouds groups) as [results|]; [|discriminate].
        destruct (Z.of_nat (length (concat results)) =? 0)%Z.
        -- inversion H; subst. right; left; reflexivity.
        -- destruct (getMedianPoint sort_Sort (concat results)) as [m|e'|] eqn:G.
           ++ destruct (pcSet _); inversion H; subst. right; right; eexists; reflexivity.
           ++ destruct (getMedianPoint_no_error _ _ G).
           ++ discriminate.
      * inversion H; subst. right; right; eexists; reflexivity.
  - inversion H; subst. right; right. eapply queryLoop_error; exact Q.
  - discriminate.
Qed.

(** C8.  [Validate] replaces a [NumQueries] of 0 by the default, 10, and
    then accepts the configuration exactly when [NumQueries] lies between 1
    and 20; otherwise it fails with [errInvalidNumQueries].  [Validate] has
    no access to a camera, and the segmenter never fails with that error:
    the range is checked before any acquisition, not during the
    operation. *)
Theorem Validate_numQueries (config : DistanceDetectorConfig) (path : string) :
  let numQueries :=
    if (NumQueries config =? 0)%Z then 10%Z else NumQueries config in
  NumQueries (fst (Validate config path)) = numQueries /\
  ((exists deps, snd (Validate config path) = Ok deps) <-> (1 <= numQueries <= 20)%Z) /\
  (snd (Validate config path) = Err errInvalidNumQueries <-> ~ (1 <= numQueries <= 20)%Z) /\
  (forall (conf : DistanceDetectorConfig) (src : @Camera Img) (c : Calls),
      fst (segmenter sort_Sort GroupWorkParallel pcSet conf src c)
      <> Err errInvalidNumQueries).
Proof.
  intros numQueries. subst numQueries. split; [|split; [|split]].
  1-3: unfold Validate;
    destruct (Z.eqb_spec (NumQueries config) 0) as [E|E]; cbn [NumQueries];
    [|destruct (Z.ltb_spec (NumQueries config) 1) as [L1|L1];
      destruct (Z.gtb_spec (NumQueries config) 20) as [L2|L2]];
    simpl; try reflexivity;
    split; intros H; try discriminate; try reflexivity;
    try (eexists; reflexivity); try lia;
    try (destruct H as [deps H]; discriminate).
  intros conf src c H.
  destruct (segmenter sort_Sort GroupWorkParallel pcSet conf src c) as [r c'] eqn:E.
  simpl in H; subst r.
  destruct (segmenter_error _ _ _ _ _ E) as [H|[H|[msg H]]]; discriminate.
Qed.

(** C9.  Let the service be made from a configuration without a default
    camera.  Called with an empty camera name, [GetObjectPointClouds] fails
    with [errNoCamera] and the calls issued are those issued before: no
    acquisition took place.  The same holds for [CaptureAllFromCamera],
    whatever is asked for. *)
Theorem no_camera_specified
        (name : string) (conf : DistanceDetectorConfig) (deps : @Dependencies Img)
        (s : @obstacleDistanceService Img)
        (captureOptions : CaptureOptions) (extra : Extra) (c : Calls) :
  DefaultCamera conf = ""%string ->
  registerObstacleDistanceDetector sort_Sort GroupWorkParallel pcSet name (Some conf) deps
  = Ok s ->
  GetObjectPointClouds s "" extra c = (Err errNoCamera, c) /\
  @CaptureAllFromCamera Img Extra Detection Classification s "" captureOptions extra c
  = (Err errNoCamera, c).
Proof.
  intros Hd Hs. unfold registerObstacleDistanceDetector in Hs.
  rewrite Hd in Hs. simpl in Hs. inversion Hs; subst s; clear Hs.
  split; reflexivity.
Qed.

(** C10.  Whatever they are given, [Detections], [DetectionsFromCamera],
    [Classifications], [ClassificationsFromCamera], [NewClientFromConn] and
    [DoCommand] return [errUnimplemented] and no value, and [GetProperties]
    reports that classification and detection are not supported and that
    object point clouds are. *)
Theorem unimplemented_methods
        (s : @obstacleDistanceService Img) (img : Img) (extra : Extra)
        (cameraName remoteName name : string) (count : Z)
        (conn : Conn) (logger : Logger) (cmd : Command) :
  @Detections Img Extra Detection s img extra = Err errUnimplemented /\
  @DetectionsFromCamera Img Extra Detection s cameraName extra = Err errUnimplemented /\
  @Classifications Img Extra Classification s img count extra = Err errUnimplemented /\
  @ClassificationsFromCamera Img Extra Classification s cameraName count extra
  = Err errUnimplemented /\
  NewClientFromConn s conn remoteName name logger = Err errUnimplemented /\
  DoCommand s cmd = Err errUnimplemented /\
  GetProperties s extra
  = Ok {| ClassificationSupported := false;
          DetectionSupported := false;
          ObjectPCDsSupported := true |}.
Proof. repeat split. Qed.

End Methods.

Lemma no_camera_specified_witness :
  exists s : @obstacleDistanceService unit,
    registerObstacleDistanceDetector (@insertionSort r3.Vector) oneGroup (fun _ => None)
      "vision-1" (Some {| NumQueries := 10; DefaultCamera := "" |}) (fun _ => None) = Ok s /\
    GetObjectPointClouds s "" tt noCalls = (Err errNoCamera, noCalls) /\
    @CaptureAllFromCamera unit unit unit unit s ""
      {| ReturnImage := true; ReturnDetections := false;
         ReturnClassifications := false; ReturnObject := true |} tt noCalls
    = (Err errNoCamera, noCalls).
Proof.
  eexists. split; [reflexivity|].
  apply (@no_camera_specified unit unit unit unit (@insertionSort r3.Vector) oneGroup
           (fun _ => None) "vision-1" {| NumQueries := 10; DefaultCamera := "" |}
           (fun _ => None)); reflexivity.
Defined.

(** * Further properties of the package *)

(** ** Validate and the registration *)

(** X1.  When [Validate] accepts a configuration, it leaves the camera name as
    it was, asks for no optional dependency, and requires the default camera,
    and nothing else, exactly when one is named. *)
Theorem Validate_dependencies (config config' : DistanceDetectorConfig) (path : string)
        (reqDeps optDeps : list string) :
  Validate config path = (config', Ok (reqDeps, optDeps)) ->
  DefaultCamera config' = DefaultCamera config /\
  optDeps = [] /\
  reqDeps = (if (DefaultCamera config =? "")%string then [] else [DefaultCamera config]).
Proof.
  unfold Validate.
  destruct (NumQueries config =? 0)%Z; cbn [NumQueries DefaultCamera];
    match goal with
    | |- context [if ?b then (_, Err _) else _] => destruct b
    end; intros H; try discriminate; injection H as <- <- <-;
    cbn [DefaultCamera]; (repeat split);
    destruct (DefaultCamera config =? "")%string; reflexivity.
Qed.

Lemma Validate_dependencies_witness :
  Validate {| NumQueries := 0; DefaultCamera := "camera-1" |} "path"
  = ({| NumQueries := 10; DefaultCamera := "camera-1" |}, Ok (["camera-1"%string], [])) /\
  DefaultCamera {| NumQueries := 10; DefaultCamera := "camera-1" |} = "camera-1"%string /\
  @nil string = [] /\
  ["camera-1"%string]
  = (if ("camera-1" =? "")%string then [] else ["camera-1"%string]).
Proof.
  split; [reflexivity|].
  exact (Validate_dependencies {| NumQueries := 0; DefaultCamera := "camera-1" |}
           {| NumQueries := 10; DefaultCamera := "camera-1" |} "path"
           ["camera-1"%string] [] eq_refl).
Defined.

(** X2.  Validating a configuration that [Validate] has already been through
    changes nothing more and gives the same result, whatever the paths: the
    default is substituted once. *)
Theorem Validate_idempotent (config : DistanceDetectorConfig) (path path' : string) :
  Validate (fst (Validate config path)) path' = Validate config path.
Proof.
  unfold Validate.
  destruct (Z.eqb_spec (NumQueries config) 0) as [E|E]; cbn [NumQueries DefaultCamera].
  - reflexivity.
  - destruct ((NumQueries config <? 1) || (NumQueries config >? 20))%Z eqn:R;
      cbn [fst]; destruct (Z.eqb_spec (NumQueries config) 0) as [E'|_]; try contradiction;
      rewrite R; reflexivity.
Qed.

Section Registration.
Context {Img : Type}.
Variable sort_Sort : (r3.Vector -> r3.Vector -> bool) -> list r3.Vector -> list r3.Vector.
Variable GroupWorkParallel : nat -> Answer (list (nat * nat)).
Variable pcSet : r3.Vector -> option string.

Let register := @registerObstacleDistanceDetector Img sort_Sort GroupWorkParallel pcSet.

(** What the registration of a configuration gives: the service, when no
    default camera is named or the named one is among the dependencies. *)
Lemma register_cases (svcName : string) (conf : DistanceDetectorConfig)
      (resources : @Dependencies Img) :
  register svcName (Some conf) resources
  = match (if (DefaultCamera conf =? "")%string then Some None
           else option_map Some (resources (DefaultCamera conf))) with
    | Some defaultCam =>
        Ok {| name := svcName;
              segmenter_ := segmenter sort_Sort GroupWorkParallel pcSet conf;
              defaultCamera := defaultCam;
              deps := resources |}
    | None => Err (errCameraNotFound (DefaultCamera conf))
    end.
Proof.
  unfold register, registerObstacleDistanceDetector, FromDependencies.
  destruct (DefaultCamera conf =? "")%string; simpl; [reflexivity|].
  destruct (resources (DefaultCamera conf)); reflexivity.
Qed.

(** X3.  The registration fails on a nil configuration, and on a configuration
    that names a default camera missing from the dependencies, with an error
    that names that camera.  Otherwise it succeeds, whatever [NumQueries] is:
    the range of [NumQueries] is not looked at.  The service has the name and
    the dependencies given, and its default camera is the named dependency. *)
Theorem registration_result (svcName : string) (conf : DistanceDetectorConfig)
        (resources : @Dependencies Img) :
  register svcName None resources = Err errNilConfig /\
  ((exists s, register svcName (Some conf) resources = Ok s) <->
   (DefaultCamera conf = ""%string \/
    exists cam, resources (DefaultCamera conf) = Some cam)) /\
  (forall s, register svcName (Some conf) resources = Ok s ->
     Name s = svcName /\
     deps s = resources /\
     defaultCamera s
     = (if (DefaultCamera conf =? "")%string then None
        else resources (DefaultCamera conf))) /\
  (forall e, register svcName (Some conf) resources = Err e ->
     e = errCameraNotFound (DefaultCamera conf)).
Proof.
  split; [reflexivity|]. rewrite register_cases.
  destruct (String.eqb_spec (DefaultCamera conf) "") as [E|E];
    [|destruct (resources (DefaultCamera conf)) as [cam|]]; simpl;
    (split; [split|split]).
  - intros _. left; exact E.
  - intros _. eexists; reflexivity.
  - intros s H. inversion H. repeat split.
  - intros e H. discriminate.
  - intros _. right. eexists; reflexivity.
  - intros _. eexists; reflexivity.
  - intros s H. inversion H. repeat split.
  - intros e H. discriminate.
  - intros [s H]. discriminate.
  - intros [H|[cam H]]; [contradiction|discriminate].
  - intros s H. discriminate.
  - intros e H. inversion H. reflexivity.
Qed.

End Registration.

(** ** getClosestPoint *)

(** The two outcomes of the scan. *)
Lemma getClosestPoint_cases (cloud : pointcloud.PointCloud) :
  (In (getClosestPoint cloud) cloud /\
   (r3.Norm2 (getClosestPoint cloud) <? MaxFloat64) = true /\
   forall q, In q cloud -> (r3.Norm2 q <? r3.Norm2 (getClosestPoint cloud)) = false) \/
  (getClosestPoint cloud = r3.zero /\
   forall q, In q cloud -> (r3.Norm2 q <? MaxFloat64) = false).
Proof.
  rewrite getClosestPoint_fold.
  destruct (fold_left closestNext cloud (MaxFloat64, r3.zero)) as [d p] eqn:E.
  destruct (scan_invariant _ _ _ _ _ E) as [[(_ & -> & Hn)|(Hin & -> & Hlt)] Hmin]; simpl.
  - right. split; [reflexivity|exact Hn].
  - left. repeat split; auto.
Qed.

(** X4.  Whatever the cloud, [getClosestPoint] returns either a point of the
    cloud whose squared distance is below [math.MaxFloat64], or the zero
    vector, and the latter when no point of the cloud has a squared distance
    below [math.MaxFloat64] (an empty cloud, or points at NaN or overflowing
    distances only).  The squared distance of the result is never NaN. *)
Theorem getClosestPoint_member_or_zero (cloud : pointcloud.PointCloud) :
  ordered (r3.Norm2 (getClosestPoint cloud)) /\
  ((In (getClosestPoint cloud) cloud /\
    (r3.Norm2 (getClosestPoint cloud) <? MaxFloat64) = true) \/
   (getClosestPoint cloud = r3.zero /\
    forall q, In q cloud -> (r3.Norm2 q <? MaxFloat64) = false)).
Proof.
  split; [apply getClosestPoint_ordered|].
  destruct (getClosestPoint_cases cloud) as [(H1 & H2 & _)|H]; [left|right]; auto.
Qed.

(** X5.  The squared distance of the closest point does not depend on the
    order in which [Iterate] hands over the points: two clouds with the same
    points give results at the same squared distance. *)
Theorem getClosestPoint_traversal_order (cloud cloud' : pointcloud.PointCloud) :
  Permutation cloud cloud' ->
  (r3.Norm2 (getClosestPoint cloud) =? r3.Norm2 (getClosestPoint cloud')) = true.
Proof.
  intros P.
  assert (P' : forall q, In q cloud' -> In q cloud)
    by (intros q; apply Permutation_in, Permutation_sym, P).
  pose proof (Permutation_in (l:=cloud) (l':=cloud')) as Pin.
  destruct (getClosestPoint_cases cloud) as [(I & L & M)|[Z N]];
    destruct (getClosestPoint_cases cloud') as [(I' & L' & M')|[Z' N']].
  - apply eqb_ltb. repeat split.
    + apply getClosestPoint_ordered.
    + apply getClosestPoint_ordered.
    + apply M', Pin; [exact P|exact I].
    + apply M, P', I'.
  - rewrite (N' _ (Pin _ P I)) in L. discriminate.
  - rewrite (N _ (P' _ I')) in L'. discriminate.
  - rewrite Z, Z'. reflexivity.
Qed.

Lemma getClosestPoint_traversal_order_witness :
  let cloud := [r3.mkVector 0 2 0; r3.mkVector 1 0 0; r3.mkVector 0 0 1] in
  let cloud' := [r3.mkVector 0 0 1; r3.mkVector 0 2 0; r3.mkVector 1 0 0] in
  getClosestPoint cloud = r3.mkVector 1 0 0 /\
  getClosestPoint cloud' = r3.mkVector 0 0 1 /\
  (r3.Norm2 (getClosestPoint cloud) =? r3.Norm2 (getClosestPoint cloud')) = true.
Proof.
  intros cloud cloud'. split; [reflexivity|]. split; [reflexivity|].
  apply (getClosestPoint_traversal_order cloud cloud').
  apply Permutation_sym.
  apply (Permutation_cons_append [r3.mkVector 0 2 0; r3.mkVector 1 0 0] (r3.mkVector 0 0 1)).
Defined.

(** ** The median *)

Section MedianEdges.
Variable sort_Sort : (r3.Vector -> r3.Vector -> bool) -> list r3.Vector -> list r3.Vector.
Hypothesis sort_Sort_sorts : forall Less, sorts Less (sort_Sort Less).

(** Sorting an empty slice leaves it empty, and reading its index 0 panics. *)
Lemma getMedianPoint_nil : getMedianPoint sort_Sort [] = Panic.
Proof.
  unfold getMedianPoint.
  pose proof (sortVectors_perm sort_Sort sort_Sort_sorts []) as P.
  apply Permutation_nil in P. rewrite P. reflexivity.
Qed.

Lemma getMedianPoint_Ok (pts : list r3.Vector) (m : r3.Vector) :
  getMedianPoint sort_Sort pts = Ok m ->
  pts <> [] /\
  nth_error (sortVectors sort_Sort pts) ((length pts - 1) / 2) = Some m /\
  In m pts.
Proof.
  intros H.
  assert (Hne : pts <> []).
  { intros ->. rewrite getMedianPoint_nil in H. discriminate. }
  destruct (getMedianPoint_nth sort_Sort sort_Sort_sorts pts Hne) as (m' & Hm & Hn & Hin).
  rewrite Hm in H. inversion H; subst. auto.
Qed.

(** X6.  [getMedianPoint] never returns an error, and it panics exactly on
    the empty slice: the index [(0 - 1) / 2] is 0 in Go, and there is no element
    to read. *)
Theorem getMedianPoint_panics_on_empty (pts : list r3.Vector) :
  (getMedianPoint sort_Sort pts = Panic <-> pts = []) /\
  (forall e, getMedianPoint sort_Sort pts <> Err e).
Proof.
  split; [split|].
  - intros H. destruct pts as [|p pts]; [reflexivity|].
    destruct (getMedianPoint_nth sort_Sort sort_Sort_sorts (p :: pts)) as (m & Hm & _);
      [discriminate|]. rewrite Hm in H. discriminate.
  - intros ->. apply getMedianPoint_nil.
  - intros e H. exact (getMedianPoint_no_error sort_Sort pts e H).
Qed.

(** X8.  The median resists outliers: among [k] points whose squared
    distances are numbers, at most [(k-1)/2] are strictly closer to the origin
    than the point [getMedianPoint] returns, and at most [k/2] are strictly
    farther. *)
Theorem getMedianPoint_rank (pts : list r3.Vector) (m : r3.Vector) :
  (forall p, In p pts -> ordered (r3.Norm2 p)) ->
  getMedianPoint sort_Sort pts = Ok m ->
  (length (filter (fun p => points_Less p m) pts) <= (length pts - 1) / 2)%nat /\
  (length (filter (fun p => points_Less m p) pts) <= length pts / 2)%nat.
Proof.
  intros Ho H.
  destruct (getMedianPoint_Ok pts m H) as (Hne & Hn & Hin).
  pose proof (sortVectors_perm sort_Sort sort_Sort_sorts pts) as P.
  pose proof (sortVectors_ascending sort_Sort sort_Sort_sorts pts Ho) as Asc.
  pose proof (sortVectors_length sort_Sort sort_Sort_sorts pts) as L.
  destruct (nth_error_split _ _ Hn) as (l1 & l2 & E & L1).
  rewrite E in Asc, L.
  destruct (ascending_app_inv _ _ _ _ _ Asc) as [B1 B2].
  assert (Irr : points_Less m m = false) by apply ltb_irrefl.
  rewrite length_app in L. simpl in L.
  assert (Hk : (0 < length pts)%nat) by lia.
  pose proof (Nat.div_mod_eq (length pts - 1) 2) as D1.
  pose proof (Nat.mod_upper_bound (length pts - 1) 2 (Nat.neq_succ_0 1)) as U1.
  pose proof (Nat.div_mod_eq (length pts) 2) as D2.
  pose proof (Nat.mod_upper_bound (length pts) 2 (Nat.neq_succ_0 1)) as U2.
  rewrite (filter_length_perm _ (fun p => points_Less p m) _ _ P).
  rewrite (filter_length_perm _ (fun p => points_Less m p) _ _ P).
  rewrite E, !filter_app, !length_app. cbn [filter]. rewrite Irr.
  rewrite (filter_none _ (fun p => points_Less p m) l2) by exact B2.
  rewrite (filter_none _ (fun p => points_Less m p) l1) by exact B1.
  pose proof (filter_length_le _ (fun p => points_Less p m) l1) as F1.
  pose proof (filter_length_le _ (fun p => points_Less m p) l2) as F2.
  cbn [length].
  generalize dependent ((length pts - 1) / 2)%nat.
  generalize dependent (length pts / 2)%nat.
  generalize dependent ((length pts - 1) mod 2)%nat.
  generalize dependent (length pts mod 2)%nat.
  intros. lia.
Qed.

Variable GroupWorkParallel : nat -> Answer (list (nat * nat)).

(** X7.  [medianFromPointClouds] hands back the error of [GroupWorkParallel]
    as it is, and fails with [errEmptyList] on an empty list of clouds. *)
Theorem medianFromPointClouds_no_candidates (clouds : list pointcloud.PointCloud) :
  (forall msg, GroupWorkParallel (length clouds) = Failure msg ->
     medianFromPointClouds sort_Sort GroupWorkParallel clouds = Err (errExternal msg)) /\
  (forall groups, GroupWorkParallel 0 = Value groups -> distributes groups 0 ->
     medianFromPointClouds sort_Sort GroupWorkParallel [] = Err errEmptyList).
Proof.
  split.
  - intros msg H. unfold medianFromPointClouds. rewrite H. reflexivity.
  - intros groups H D. unfold medianFromPointClouds. simpl length. rewrite H.
    destruct (candidates_perm [] groups D) as (results & -> & P).
    simpl in P. apply Permutation_sym, Permutation_nil in P. rewrite P. reflexivity.
Qed.

Hypothesis GroupWorkParallel_distributes :
  forall totalSize groups,
    GroupWorkParallel totalSize = Value groups -> distributes groups totalSize.

(** With groups that cover the clouds, the median of a non-empty list of
    clouds is the closest point of one of them, or the error of
    [GroupWorkParallel]. *)
Lemma medianFromPointClouds_cases (clouds : list pointcloud.PointCloud) :
  clouds <> [] ->
  (exists m cloud, medianFromPointClouds sort_Sort GroupWorkParallel clouds = Ok m /\
                   In cloud clouds /\ m = getClosestPoint cloud) \/
  (exists msg, medianFromPointClouds sort_Sort GroupWorkParallel clouds
               = Err (errExternal msg)).
Proof.
  intros Hne.
  destruct (GroupWorkParallel (length clouds)) as [groups|msg] eqn:G.
  - left.
    destruct (medianFromPointClouds_candidates sort_Sort GroupWorkParallel clouds groups G
                (GroupWorkParallel_distributes _ _ G) Hne) as (c & Pc & Nc & ->).
    destruct (getMedianPoint_nth sort_Sort sort_Sort_sorts c Nc) as (m & -> & _ & Hin).
    apply (Permutation_in _ Pc), in_map_iff in Hin.
    destruct Hin as (cloud & <- & Hc).
    exists (getClosestPoint cloud), cloud. auto.
  - right. exists msg. unfold medianFromPointClouds. rewrite G. reflexivity.
Qed.

(** X9.  The closest point of a cloud without a point below
    [math.MaxFloat64] is the zero vector, and it counts as a candidate: when
    no cloud of a non-empty list has such a point (all are empty, say), the
    median is the zero vector, not an error.  The clouds must be filtered
    before, as the segmenter does. *)
Theorem medianFromPointClouds_degenerate (clouds : list pointcloud.PointCloud)
        (groups : list (nat * nat)) :
  GroupWorkParallel (length clouds) = Value groups ->
  clouds <> [] ->
  (forall cloud q, In cloud clouds -> In q cloud -> (r3.Norm2 q <? MaxFloat64) = false) ->
  medianFromPointClouds sort_Sort GroupWorkParallel clouds = Ok r3.zero.
Proof.
  intros G Hne Hall.
  destruct (medianFromPointClouds_cases clouds Hne) as [(m & cloud & -> & Hc & ->)|[msg H]].
  - destruct (getClosestPoint_cases cloud) as [(I & L & _)|[Z _]].
    + rewrite (Hall cloud _ Hc I) in L. discriminate.
    + rewrite Z. reflexivity.
  - unfold medianFromPointClouds in H. rewrite G in H.
    destruct (candidates_perm clouds groups (GroupWorkParallel_distributes _ _ G))
      as (results & Hr & _).
    rewrite Hr in H.
    destruct (Z.of_nat (length (concat results)) =? 0)%Z; [discriminate|].
    destruct (getMedianPoint_no_error sort_Sort (concat results) (errExternal msg) H).
Qed.

End MedianEdges.

(** ** The segmenter, whatever the camera answers *)

Lemma memberWork_members (clouds : list pointcloud.PointCloud) (nums : list nat) :
  forall closestPoints result,
    memberWork clouds nums closestPoints = Some result ->
    forall p, In p result ->
              In p closestPoints \/ exists cloud, In cloud clouds /\ p = getClosestPoint cloud.
Proof.
  induction nums as [|w nums IH]; intros acc result H p Hp; simpl in H.
  - inversion H; subst. left; exact Hp.
  - destruct (nth_error clouds w) as [cloud|] eqn:E; [|discriminate].
    destruct (IH _ _ H p Hp) as [Hacc|Hc]; [|right; exact Hc].
    apply in_app_or in Hacc. destruct Hacc as [Hacc|[<-|[]]]; [left; exact Hacc|].
    right. exists cloud. split; [eapply nth_error_In; exact E|reflexivity].
Qed.

Lemma groupResults_members (clouds : list pointcloud.PointCloud) (groups : list (nat * nat)) :
  forall results,
    groupResults clouds groups = Some results ->
    forall p, In p (concat results) ->
              exists cloud, In cloud clouds /\ p = getClosestPoint cloud.
Proof.
  induction groups as [|[from to] groups IH]; intros results H p Hp; simpl in H.
  - inversion H; subst. destruct Hp.
  - destruct (memberWork clouds (seq from (to - from)) []) as [cps|] eqn:M; [|discriminate].
    destruct (groupResults clouds groups) as [rest|]; [|discriminate].
    inversion H; subst. simpl in Hp. apply in_app_or in Hp. destruct Hp as [Hp|Hp].
    + destruct (memberWork_members _ _ _ _ M p Hp) as [[]|Hc]. exact Hc.
    + apply (IH rest eq_refl p Hp).
Qed.

(** A median is the closest point of one of the clouds. *)
Lemma medianFromPointClouds_member
      (sort_Sort : (r3.Vector -> r3.Vector -> bool) -> list r3.Vector -> list r3.Vector)
      (GroupWorkParallel : nat -> Answer (list (nat * nat)))
      (clouds : list pointcloud.PointCloud) (m : r3.Vector) :
  (forall Less, sorts Less (sort_Sort Less)) ->
  medianFromPointClouds sort_Sort GroupWorkParallel clouds = Ok m ->
  exists cloud, In cloud clouds /\ m = getClosestPoint cloud.
Proof.
  intros HS H. unfold medianFromPointClouds in H.
  destruct (GroupWorkParallel (length clouds)) as [groups|msg]; [|discriminate].
  destruct (groupResults clouds groups) as [results|] eqn:G; [|discriminate].
  destruct (Z.of_nat (length (concat results)) =? 0)%Z; [discriminate|].
  destruct (getMedianPoint_Ok sort_Sort HS _ _ H) as (_ & _ & Hin).
  apply (groupResults_members clouds groups results G m Hin).
Qed.

Section SegmenterRuns.
Context {Img : Type}.
Variable sort_Sort : (r3.Vector -> r3.Vector -> bool) -> list r3.Vector -> list r3.Vector.
Variable GroupWorkParallel : nat -> Answer (list (nat * nat)).
Variable pcSet : r3.Vector -> option string.
Variable src : @Camera Img.

(** The loop, whatever the camera answers: it asks for at most [n] clouds, and
    for one at least when [n] is not 0; it reads no image and does not panic;
    when it comes to its end, it has asked for [n] clouds and kept those that
    are not empty. *)
Lemma queryLoop_run (n : nat) :
  forall clouds c r c',
    queryLoop src n clouds c = (r, c') ->
    images c' = images c /\
    (pointClouds c <= pointClouds c' <= pointClouds c + n)%nat /\
    ((1 <= n)%nat -> (pointClouds c < pointClouds c')%nat) /\
    r <> Panic /\
    (forall kept, r = Ok kept ->
       c' = after c n /\
       exists new, kept = clouds ++ new /\
         forall pc, In pc new ->
           pc <> [] /\
           exists k, (pointClouds c <= k < pointClouds c + n)%nat /\
                     nextPointCloud src k = Value pc).
Proof.
  induction n as [|n IH]; intros clouds c r c' H; simpl in H.
  - inversion H; subst.
    split; [reflexivity|]. split; [lia|]. split; [lia|]. split; [discriminate|].
    intros kept K. inversion K; subst. split; [symmetry; apply after_0|].
    exists []. rewrite app_nil_r. split; [reflexivity|]. intros pc [].
  - unfold bind at 1 in H. unfold NextPointCloud at 1 in H.
    destruct (nextPointCloud src (pointClouds c)) as [pc|msg] eqn:A; simpl in H.
    + set (c1 := {| pointClouds := S (pointClouds c); images := images c |}) in *.
      assert (Step : exists clouds1 new1,
                 queryLoop src n clouds1 c1 = (r, c') /\ clouds1 = clouds ++ new1 /\
                 forall q, In q new1 -> q <> [] /\ q = pc).
      { destruct pc as [|pt pc]; simpl in H.
        - exists clouds, []. rewrite app_nil_r.
          split; [exact H|]. split; [reflexivity|]. intros q [].
        - exists (clouds ++ [pt :: pc]), [pt :: pc].
          split; [exact H|]. split; [reflexivity|].
          intros q [<-|[]]. split; [discriminate|reflexivity]. }
      destruct Step as (clouds1 & new1 & Q & -> & Hnew).
      destruct (IH _ _ _ _ Q) as (I & B & _ & NP & K). simpl in I, B.
      split; [exact I|]. split; [lia|]. split; [lia|]. split; [exact NP|].
      intros kept E. destruct (K kept E) as [-> (new & -> & Hk)].
      split; [subst c1; apply after_S|].
      exists (new1 ++ new). rewrite app_assoc. split; [reflexivity|].
      intros q Hq. apply in_app_or in Hq. destruct Hq as [Hq|Hq].
      * destruct (Hnew q Hq) as [Hne ->]. split; [exact Hne|].
        exists (pointClouds c). split; [lia|exact A].
      * destruct (Hk q Hq) as [Hne (k & Hr & Hv)]. split; [exact Hne|].
        exists k. simpl in Hr. split; [lia|exact Hv].
    + inversion H; subst. simpl.
      split; [reflexivity|]. split; [lia|]. split; [lia|]. split; [discriminate|].
      intros kept K. discriminate.
Qed.

Variable conf : DistanceDetectorConfig.

Let run : M (list vis.Object) := segmenter sort_Sort GroupWorkParallel pcSet conf src.
Let numQueries : nat := Z.to_nat (NumQueries conf).

(** The segmenter is the loop followed by the estimate, which calls no
    camera. *)
Lemma segmenter_run (c : Calls) :
  run c
  = match queryLoop src numQueries [] c with
    | (Ok clouds, c') => (estimate sort_Sort GroupWorkParallel pcSet clouds, c')
    | (Err e, c') => (Err e, c')
    | (Panic, c') => (Panic, c')
    end.
Proof.
  unfold run, segmenter. fold numQueries. unfold bind at 1.
  destruct (queryLoop src numQueries [] c) as [[clouds|e|] c']; try reflexivity.
  destruct clouds as [|pc kept]; [reflexivity|].
  assert (Hz : (Z.of_nat (length (pc :: kept)) =? 0)%Z = false)
    by (apply Z.eqb_neq; simpl length; lia).
  rewrite Hz. unfold estimate, bind, lift.
  destruct (medianFromPointClouds sort_Sort GroupWorkParallel (pc :: kept)) as [[x y z]| |];
    try reflexivity.
  unfold pointcloud.NewVector. cbn [r3.X r3.Y r3.Z].
  destruct (pcSet (r3.mkVector x y z)); reflexivity.
Qed.

Lemma segmenter_snd (c : Calls) : snd (run c) = snd (queryLoop src numQueries [] c).
Proof.
  rewrite segmenter_run.
  destruct (queryLoop src numQueries [] c) as [[clouds|e|] c']; reflexivity.
Qed.



(** X12.  When the segmenter succeeds, it has asked for exactly [NumQueries]
    point clouds and returns one object: a cloud of one point with a point
    geometry labelled "obstacle" at that point, which is the closest point of
    a non-empty cloud that the camera answered during this call. *)
Theorem segmenter_success (c c' : Calls) (objects : list vis.Object) :
  (forall Less, sorts Less (sort_Sort Less)) ->
  run c = (Ok objects, c') ->
  c' = after c numQueries /\
  exists median cloud k,
    objects = [ {| vis.PointCloud := [median];
                   vis.Geometry := {| spatialmath.Point := median;
                                      spatialmath.Label := "obstacle" |} |} ] /\
    median = getClosestPoint cloud /\
    cloud <> [] /\
    (pointClouds c <= k < pointClouds c + numQueries)%nat /\
    nextPointCloud src k = Value cloud.
Proof.
  intros HS H. rewrite segmenter_run in H.
  destruct (queryLoop src numQueries [] c) as [[clouds|e|] c1] eqn:Q; try discriminate.
  destruct (queryLoop_run _ _ _ _ _ Q) as (_ & _ & _ & _ & K).
  destruct (K clouds eq_refl) as [-> (new & E & Hnew)]. simpl in E. subst new.
  inversion H as [[R C]]. split; [reflexivity|].
  unfold estimate in R. destruct clouds as [|pc kept]; [discriminate|].
  destruct (medianFromPointClouds sort_Sort GroupWorkParallel (pc :: kept)) as [m| |] eqn:Med;
    try discriminate.
  destruct (pcSet m); [discriminate|]. inversion R; subst objects.
  destruct (medianFromPointClouds_member _ _ _ _ HS Med) as (cloud & Hc & ->).
  destruct (Hnew cloud Hc) as [Hne (k & Hr & Hv)].
  exists (getClosestPoint cloud), cloud, k. repeat split; auto; lia.
Qed.


End SegmenterRuns.


Lemma oneGroup_distributes (totalSize : nat) (groups : list (nat * nat)) :
  oneGroup totalSize = Value groups -> distributes groups totalSize.
Proof.
  intros H. inversion H; subst. unfold distributes, workNums. simpl.
  rewrite Nat.sub_0_r, app_nil_r. apply Permutation_refl.
Qed.

Lemma getMedianPoint_panics_on_empty_witness :
  getMedianPoint (@insertionSort r3.Vector) [] = Panic /\
  (getMedianPoint (@insertionSort r3.Vector) [] = Panic <-> @nil r3.Vector = []) /\
  (forall e, getMedianPoint (@insertionSort r3.Vector) [] <> Err e).
Proof.
  split; [reflexivity|].
  apply (getMedianPoint_panics_on_empty (@insertionSort r3.Vector)
           (fun Less => insertionSort_sorts r3.Vector Less) []).
Defined.

(** Four candidates, one of them far away: the median is the second
    closest. *)
Lemma getMedianPoint_rank_witness :
  let pts := [r3.mkVector 3 0 0; r3.mkVector 1 0 0; r3.mkVector 50 0 0; r3.mkVector 2 0 0] in
  let m := r3.mkVector 2 0 0 in
  getMedianPoint (@insertionSort r3.Vector) pts = Ok m /\
  (length (filter (fun p => points_Less p m) pts) <= (length pts - 1) / 2)%nat /\
  (length (filter (fun p => points_Less m p) pts) <= length pts / 2)%nat.
Proof.
  intros pts m. split; [reflexivity|].
  apply (getMedianPoint_rank (@insertionSort r3.Vector)
           (fun Less => insertionSort_sorts r3.Vector Less) pts m).
  - intros p [<-|[<-|[<-|[<-|[]]]]]; reflexivity.
  - reflexivity.
Defined.

Lemma medianFromPointClouds_degenerate_witness :
  medianFromPointClouds (@insertionSort r3.Vector) oneGroup
                        [[]; [r3.mkVector 0x1p+600 0 0]; []]
  = Ok r3.zero.
Proof.
  apply (medianFromPointClouds_degenerate (@insertionSort r3.Vector)
           (fun Less => insertionSort_sorts r3.Vector Less) oneGroup oneGroup_distributes
           [[]; [r3.mkVector 0x1p+600 0 0]; []] [(0, 3)]%nat).
  - reflexivity.
  - discriminate.
  - intros cloud q [<-|[<-|[<-|[]]]] Hq; try destruct Hq as [<-|[]]; try destruct Hq.
    reflexivity.
Defined.

Lemma segmenter_success_witness :
  exists median cloud k,
    [obstacle (r3.mkVector 5 0 0)]
    = [ {| vis.PointCloud := [median];
           vis.Geometry := {| spatialmath.Point := median;
                              spatialmath.Label := "obstacle" |} |} ] /\
    median = getClosestPoint cloud /\
    cloud <> [] /\
    (0 <= k < 0 + 10)%nat /\
    nextPointCloud rangeCamera k = Value cloud.
Proof.
  apply (proj2 (segmenter_success (@insertionSort r3.Vector) oneGroup (fun _ => None)
                  rangeCamera {| NumQueries := 10; DefaultCamera := "" |}
                  noCalls {| pointClouds := 10; images := 0 |}
                  [obstacle (r3.mkVector 5 0 0)]
                  (fun Less => insertionSort_sorts r3.Vector Less) eq_refl)).
Defined.


(** ** The methods of the service *)

Lemma Validate_range (config config' : DistanceDetectorConfig) (path : string)
      (dependencies : list string * list string) :
  Validate config path = (config', Ok dependencies) ->
  (1 <= NumQueries config' <= 20)%Z /\
  (NumQueries config = 0%Z -> NumQueries config' = 10%Z).
Proof.
  unfold Validate.
  destruct (Z.eqb_spec (NumQueries config) 0) as [E|E]; cbn [NumQueries].
  - simpl. intros H. inversion H; subst. cbn [NumQueries]. unfold DefaultNumQueries.
    split; [lia|reflexivity].
  - destruct (Z.ltb_spec (NumQueries config) 1) as [L1|L1];
      destruct (Z.gtb_spec (NumQueries config) 20) as [L2|L2]; simpl;
        intros H; inversion H; subst. split; [lia|contradiction].
Qed.

Section ServiceCalls.
Context {Img Extra Detection Classification : Type}.
Variable sort_Sort : (r3.Vector -> r3.Vector -> bool) -> list r3.Vector -> list r3.Vector.
Variable GroupWorkParallel : nat -> Answer (list (nat * nat)).
Variable pcSet : r3.Vector -> option string.

Let register := @registerObstacleDistanceDetector Img sort_Sort GroupWorkParallel pcSet.
Let capture := @CaptureAllFromCamera Img Extra Detection Classification.

(** X14.  On a registered service, [GetObjectPointClouds] with a camera name
    runs the segmenter of the configuration on the dependency of that name,
    and fails without a call to a camera when there is none, also when a
    default camera is configured.  Naming the default camera is the same as
    naming no camera. *)
Theorem GetObjectPointClouds_camera
        (svcName : string) (conf : DistanceDetectorConfig) (resources : @Dependencies Img)
        (s : @obstacleDistanceService Img) (extra : Extra) (c : Calls) :
  register svcName (Some conf) resources = Ok s ->
  (forall cameraName cam,
      cameraName <> ""%string -> resources cameraName = Some cam ->
      GetObjectPointClouds s cameraName extra c
      = segmenter sort_Sort GroupWorkParallel pcSet conf cam c) /\
  (forall cameraName,
      cameraName <> ""%string -> resources cameraName = None ->
      GetObjectPointClouds s cameraName extra c = (Err (errExternal cameraName), c)) /\
  (DefaultCamera conf <> ""%string ->
   GetObjectPointClouds s "" extra c
   = GetObjectPointClouds s (DefaultCamera conf) extra c).
Proof.
  intros H. subst register. rewrite register_cases in H.
  assert (Hs : segmenter_ s = segmenter sort_Sort GroupWorkParallel pcSet conf /\
               deps s = resources /\
               (DefaultCamera conf <> ""%string ->
                defaultCamera s = resources (DefaultCamera conf) /\
                resources (DefaultCamera conf) <> None)).
  { destruct (String.eqb_spec (DefaultCamera conf) "") as [E|E].
    - inversion H; subst s. repeat split; contradiction.
    - destruct (resources (DefaultCamera conf)) as [cam|]; simpl in H; inversion H; subst s.
      repeat split. discriminate. }
  destruct Hs as (Hseg & Hdeps & Hdef).
  unfold GetObjectPointClouds, FromDependencies. rewrite Hseg, Hdeps.
  split; [|split].
  - intros cameraName cam Hn Hc. apply String.eqb_neq in Hn. rewrite Hn, Hc. reflexivity.
  - intros cameraName Hn Hc. apply String.eqb_neq in Hn. rewrite Hn, Hc. reflexivity.
  - intros Hn. destruct (Hdef Hn) as [-> Hsome]. apply String.eqb_neq in Hn. rewrite Hn.
    simpl. destruct (resources (DefaultCamera conf)) as [cam|]; [reflexivity|congruence].
Qed.

(** [CaptureAllFromCamera] first finds the camera, without a call to it. *)
Lemma capture_resolved (s : @obstacleDistanceService Img) (cameraName : string)
      (captureOptions : CaptureOptions) (extra : Extra) (c : Calls) :
  capture s cameraName captureOptions extra c
  = match (if (cameraName =? "")%string
           then match defaultCamera s with
                | Some cam => Ok cam
                | None => Err errNoCamera
                end
           else FromDependencies (deps s) cameraName) with
    | Ok cam =>
        (image <- (if ReturnImage captureOptions
                   then img <- DecodeImageFromCamera cam ;; ret (Some img)
                   else ret None) ;;
         objects <- (if ReturnObject captureOptions
                     then GetObjectPointClouds s cameraName extra
                     else ret []) ;;
         ret {| Image := image; Detections_ := []; Classifications_ := [];
                Objects := objects |}) c
    | Err e => (Err e, c)
    | Panic => (Panic, c)
    end.
Proof.
  unfold capture, CaptureAllFromCamera.
  destruct (cameraName =? "")%string; cbn [negb].
  - destruct (defaultCamera s); reflexivity.
  - destruct (FromDependencies (deps s) cameraName); reflexivity.
Qed.

(** X15.  Asked for the objects only, [CaptureAllFromCamera] is
    [GetObjectPointClouds]: the same calls to the camera, the same error, and
    on success the same objects, with no image, no detection and no
    classification beside them. *)
Theorem CaptureAllFromCamera_objects
        (s : @obstacleDistanceService Img) (cameraName : string)
        (detections classifications : bool) (extra : Extra) (c : Calls) :
  capture s cameraName
          {| ReturnImage := false; ReturnDetections := detections;
             ReturnClassifications := classifications; ReturnObject := true |} extra c
  = match GetObjectPointClouds s cameraName extra c with
    | (Ok objects, c') =>
        (Ok {| Image := None; Detections_ := []; Classifications_ := [];
               Objects := objects |}, c')
    | (Err e, c') => (Err e, c')
    | (Panic, c') => (Panic, c')
    end.
Proof.
  unfold capture, CaptureAllFromCamera, GetObjectPointClouds, FromDependencies.
  cbn [ReturnImage ReturnObject].
  destruct (cameraName =? "")%string; cbn [negb].
  - destruct (defaultCamera s) as [cam|]; [|reflexivity].
    unfold bind, ret. destruct (segmenter_ s cam c) as [[objects|e|] c']; reflexivity.
  - destruct (deps s cameraName) as [cam|]; [|reflexivity].
    unfold bind, ret, lift. destruct (segmenter_ s cam c) as [[objects|e|] c']; reflexivity.
Qed.

(** X16.  A capture that succeeds holds no detection and no classification,
    whatever is asked for; it holds an image exactly when one is asked for, and
    no object when none is asked for.  When neither an image nor the objects
    are asked for, no call is made to a camera. *)
Theorem CaptureAllFromCamera_capture
        (s : @obstacleDistanceService Img) (cameraName : string)
        (captureOptions : CaptureOptions) (extra : Extra) (c : Calls) :
  (forall result,
      fst (capture s cameraName captureOptions extra c) = Ok result ->
      Detections_ result = [] /\
      Classifications_ result = [] /\
      (ReturnImage captureOptions = true <-> exists img, Image result = Some img) /\
      (ReturnObject captureOptions = false -> Objects result = [])) /\
  (ReturnImage captureOptions = false -> ReturnObject captureOptions = false ->
   snd (capture s cameraName captureOptions extra c) = c).
Proof.
  rewrite capture_resolved.
  destruct (if (cameraName =? "")%string
            then match defaultCamera s with
                 | Some cam => Ok cam
                 | None => Err errNoCamera
                 end
            else FromDependencies (deps s) cameraName) as [cam|e|].
  2,3: split; [intros result H; discriminate|reflexivity].
  destruct (ReturnImage captureOptions); destruct (ReturnObject captureOptions);
    unfold bind, ret, DecodeImageFromCamera;
    repeat match goal with
           | |- context [answered ?a] => destruct a; simpl
           | |- context [GetObjectPointClouds ?s ?n ?e ?c] =>
               destruct (GetObjectPointClouds s n e c) as [[?|?|] ?]; simpl
           end;
    (split; [intros result H; try discriminate
            |intros H1 H2; try discriminate; try reflexivity]).
  all: inversion H; subst result; simpl; repeat split; try discriminate; try reflexivity;
    try (intros _; eexists; reflexivity);
    try (intros [img Himg]; discriminate).
Qed.

(** X17.  When an image is asked for and reading it fails, the capture fails
    with that error before any point cloud is asked for. *)
Theorem CaptureAllFromCamera_image_failure
        (s : @obstacleDistanceService Img) (cameraName : string) (cam : @Camera Img)
        (captureOptions : CaptureOptions) (extra : Extra) (c : Calls) (msg : string) :
  (if (cameraName =? "")%string then defaultCamera s else deps s cameraName) = Some cam ->
  ReturnImage captureOptions = true ->
  decodeImage cam (images c) = Failure msg ->
  capture s cameraName captureOptions extra c
  = (Err (errExternal msg), {| pointClouds := pointClouds c; images := S (images c) |}).
Proof.
  intros R I D. unfold capture, CaptureAllFromCamera, FromDependencies.
  destruct (cameraName =? "")%string; cbn [negb]; rewrite R, I;
    unfold bind, ret, lift, DecodeImageFromCamera; rewrite D; reflexivity.
Qed.

(** X18.  With a configuration that [Validate] accepted, every run of the
    segmenter asks the camera for at least one and at most 20 point clouds,
    whatever the camera answers; 10 is the number of rounds when [NumQueries]
    was left unset. *)
Theorem validated_segmenter_calls
        (config config' : DistanceDetectorConfig) (path : string)
        (dependencies : list string * list string) (src : @Camera Img) (c : Calls) :
  Validate config path = (config', Ok dependencies) ->
  (pointClouds c
   < pointClouds (snd (segmenter sort_Sort GroupWorkParallel pcSet config' src c))
   <= pointClouds c + 20)%nat /\
  (NumQueries config = 0%Z -> Z.to_nat (NumQueries config') = 10%nat).
Proof.
  intros H. destruct (Validate_range _ _ _ _ H) as [R D].
  split; [|intros E; rewrite (D E); reflexivity].
  rewrite (segmenter_snd sort_Sort GroupWorkParallel pcSet src config' c).
  destruct (queryLoop src (Z.to_nat (NumQueries config')) [] c) as [r c'] eqn:Q.
  destruct (queryLoop_run src _ _ _ _ _ Q) as (_ & B & P & _). simpl. lia.
Qed.

End ServiceCalls.

Lemma GetObjectPointClouds_camera_witness :
  exists s : @obstacleDistanceService unit,
    registerObstacleDistanceDetector (@insertionSort r3.Vector) oneGroup (fun _ => None)
      "vision-1" (Some {| NumQueries := 10; DefaultCamera := "camera-1" |}) oneCamera = Ok s /\
    GetObjectPointClouds s "" tt noCalls
    = (Ok [obstacle (r3.mkVector 5 0 0)], {| pointClouds := 10; images := 0 |}) /\
    GetObjectPointClouds s "camera-2" tt noCalls = (Err (errExternal "camera-2"), noCalls) /\
    GetObjectPointClouds s "" tt noCalls = GetObjectPointClouds s "camera-1" tt noCalls.
Proof.
  eexists. split; [reflexivity|]. split; [reflexivity|].
  pose proof (@GetObjectPointClouds_camera unit unit (@insertionSort r3.Vector) oneGroup
                (fun _ => None) "vision-1" {| NumQueries := 10; DefaultCamera := "camera-1" |}
                oneCamera _ tt noCalls eq_refl) as (_ & H2 & H3).
  split.
  - apply (H2 "camera-2"%string); [discriminate|reflexivity].
  - apply H3. discriminate.
Defined.

Lemma CaptureAllFromCamera_image_failure_witness :
  @CaptureAllFromCamera unit unit unit unit imagelessService ""
    {| ReturnImage := true; ReturnDetections := false;
       ReturnClassifications := false; ReturnObject := true |} tt noCalls
  = (Err (errExternal "no image"), {| pointClouds := 0; images := 1 |}).
Proof.
  apply (@CaptureAllFromCamera_image_failure unit unit unit unit imagelessService ""
           imagelessCamera); reflexivity.
Defined.

Lemma validated_segmenter_calls_witness :
  Validate {| NumQueries := 0; DefaultCamera := "" |} "path"
  = ({| NumQueries := 10; DefaultCamera := "" |}, Ok ([], [])) /\
  (0 < pointClouds (snd (segmenter (@insertionSort r3.Vector) oneGroup (fun _ => None)
                                   {| NumQueries := 10; DefaultCamera := "" |}
                                   flakyCamera noCalls))
   <= 0 + 20)%nat /\
  (0%Z = 0%Z -> Z.to_nat 10 = 10%nat).
Proof.
  split; [reflexivity|].
  exact (@validated_segmenter_calls unit (@insertionSort r3.Vector) oneGroup (fun _ => None)
           {| NumQueries := 0; DefaultCamera := "" |}
           {| NumQueries := 10; DefaultCamera := "" |} "path" ([], [])
           flakyCamera noCalls eq_refl).
Defined.
